(** * Blogicum: the blog application's models and views

    A shallow embedding of [blog/models.py], [blog/forms.py], [blog/urls.py]
    and [blog/views.py].  Tables are lists of rows in storage order, a
    queryset is the list of rows it evaluates to, time stamps are integers
    and [timezone.now()] is an argument of the view that reads it.  A view
    takes the database and the request and returns the response together
    with the database it leaves behind.  Responses are rendered pages,
    redirects to a named route of [blog/urls.py] with its arguments, or the
    404 page. *)

From Stdlib Require Import List ZArith Bool String Ascii Lia.
From Stdlib Require Import Sorting.Permutation Sorting.Sorted.
From Stdlib Require Import DecimalString DecimalN.
Import ListNotations.
Local Open Scope Z_scope.

Set Implicit Arguments.

(** A Python [str]: the sequence of its code points. *)
Definition str : Type := list N.

(** The [str] of a literal of ASCII characters. *)
Definition txt (s : string) : str := map N_of_ascii (list_ascii_of_string s).

(** ** blog/models.py *)

Record User := mkUser {
  user_pk : Z;
  username : string
}.

Record Category := mkCategory {
  category_pk : Z;
  category_title : string;
  category_description : string;
  category_slug : string;
  category_is_published : bool;
  category_created_at : Z
}.

Record Location := mkLocation {
  location_pk : Z;
  location_name : string;
  location_is_published : bool;
  location_created_at : Z
}.

Record Post := mkPost {
  post_pk : Z;
  post_title : str;
  post_text : str;
  post_pub_date : Z;
  post_author : Z;
  post_location : option Z;
  post_category : option Z;
  post_image : string;
  post_is_published : bool;
  post_created_at : Z
}.

Record Comment := mkComment {
  comment_pk : Z;
  comment_text : str;
  comment_post : Z;
  comment_created_at : Z;
  comment_author : Z
}.

Record DB := mkDB {
  users : list User;
  categories : list Category;
  locations : list Location;
  posts : list Post;
  comments : list Comment
}.

(** The [on_delete] argument of a [ForeignKey]. *)
Inductive on_delete := CASCADE | SET_NULL.

Module Fields.
Definition Post_author := CASCADE.
Definition Post_location := SET_NULL.
Definition Post_category := SET_NULL.
Definition Comment_post := CASCADE.
Definition Comment_author := CASCADE.
End Fields.

(** ** Rows that reference a deleted row

    [collect policy refs set_null rows] is what deleting the referenced
    rows does to the table [rows], whose rows point at them when [refs]
    holds: the rows kept (a [SET_NULL] key is cleared in place) and the rows
    deleted with their target. *)
Definition collect {R : Type} (policy : on_delete) (refs : R -> bool)
    (set_null : R -> R) (rows : list R) : list R * list R :=
  match policy with
  | CASCADE => (filter (fun r => negb (refs r)) rows, filter refs rows)
  | SET_NULL => (map (fun r => if refs r then set_null r else r) rows, [])
  end.

Definition opt_is (k : Z) (o : option Z) : bool :=
  match o with Some j => j =? k | None => false end.

Definition mem_pk (k : Z) (ks : list Z) : bool := existsb (Z.eqb k) ks.

Definition clear_location (p : Post) : Post :=
  mkPost (post_pk p) (post_title p) (post_text p) (post_pub_date p)
    (post_author p) None (post_category p) (post_image p)
    (post_is_published p) (post_created_at p).

Definition clear_category (p : Post) : Post :=
  mkPost (post_pk p) (post_title p) (post_text p) (post_pub_date p)
    (post_author p) (post_location p) None (post_image p)
    (post_is_published p) (post_created_at p).

(** Deleting the posts [gone] takes the comments on them along. *)
Definition drop_comments_of (gone : list Post) (cs : list Comment) : list Comment :=
  fst (collect Fields.Comment_post
         (fun c => mem_pk (comment_post c) (map post_pk gone)) (fun c => c) cs).

Definition Location_delete (db : DB) (pk : Z) : DB :=
  let (kept, gone) :=
    collect Fields.Post_location (fun p => opt_is pk (post_location p))
      clear_location (posts db) in
  mkDB (users db) (categories db)
    (filter (fun l => negb (location_pk l =? pk)) (locations db))
    kept (drop_comments_of gone (comments db)).

Definition Category_delete (db : DB) (pk : Z) : DB :=
  let (kept, gone) :=
    collect Fields.Post_category (fun p => opt_is pk (post_category p))
      clear_category (posts db) in
  mkDB (users db)
    (filter (fun c => negb (category_pk c =? pk)) (categories db))
    (locations db) kept (drop_comments_of gone (comments db)).

Definition Post_delete (db : DB) (pk : Z) : DB :=
  let gone := filter (fun p => post_pk p =? pk) (posts db) in
  mkDB (users db) (categories db) (locations db)
    (filter (fun p => negb (post_pk p =? pk)) (posts db))
    (drop_comments_of gone (comments db)).

Definition Comment_delete (db : DB) (pk : Z) : DB :=
  mkDB (users db) (categories db) (locations db) (posts db)
    (filter (fun c => negb (comment_pk c =? pk)) (comments db)).

Definition User_delete (db : DB) (pk : Z) : DB :=
  let (kept, gone) :=
    collect Fields.Post_author (fun p => post_author p =? pk)
      (fun p => p) (posts db) in
  let (own_kept, _) :=
    collect Fields.Comment_author (fun c => comment_author c =? pk)
      (fun c => c) (comments db) in
  mkDB (filter (fun u => negb (user_pk u =? pk)) (users db))
    (categories db) (locations db) kept (drop_comments_of gone own_kept).

(** Every comment's post is a stored post. *)
Definition comments_have_posts (db : DB) : Prop :=
  forall c, In c (comments db) ->
    exists p, In p (posts db) /\ post_pk p = comment_post c.

(** What a set-null deletion leaves of a post: the post with that key cleared
    when it pointed at the deleted row, the post itself otherwise. *)
Definition without_location (pk : Z) (p : Post) : Post :=
  if opt_is pk (post_location p) then clear_location p else p.

Definition without_category (pk : Z) (p : Post) : Post :=
  if opt_is pk (post_category p) then clear_category p else p.

(** ** Querysets *)

Inductive Exn := Http404 | MultipleObjectsReturned.

(** A computation that may raise. *)
Definition M (A : Type) : Type := Exn + A.

Definition ret {A} (a : A) : M A := inr a.
Definition raise {A} (e : Exn) : M A := inl e.
Definition bind {A B} (m : M A) (k : A -> M B) : M B :=
  match m with inl e => inl e | inr a => k a end.

Notation "x <- m ;; k" := (bind m (fun x => k))
  (at level 61, m at next level, right associativity).

(** [get_object_or_404(klass, **kwargs)]: [QuerySet.get] with a missing row
    turned into [Http404]. *)
Definition get_object_or_404 {R} (cond : R -> bool) (rows : list R) : M R :=
  match filter cond rows with
  | [] => raise Http404
  | [r] => ret r
  | _ => raise MultipleObjectsReturned
  end.

Fixpoint insert_by {A} (le : A -> A -> bool) (x : A) (l : list A) : list A :=
  match l with
  | [] => [x]
  | y :: t => if le x y then x :: l else y :: insert_by le x t
  end.

(** [order_by]: the rows in the order of [le], ties in storage order. *)
Definition order_by {A} (le : A -> A -> bool) (l : list A) : list A :=
  fold_right (insert_by le) [] l.

(** [ordering = ('-pub_date',)] of [IndexList]. *)
Definition pub_date_desc (p q : Post) : bool := post_pub_date q <=? post_pub_date p.

(** [ordering = ('created_at',)] of [Comment.Meta]. *)
Definition created_at_asc (c d : Comment) : bool :=
  comment_created_at c <=? comment_created_at d.

(** The related manager [post.comment] ([related_name='comment']). *)
Definition Post_comment (db : DB) (p : Post) : list Comment :=
  order_by created_at_asc
    (filter (fun c => comment_post c =? post_pk p) (comments db)).

(** [annotate(comment_count=Count('comment'))]. *)
Definition Count_comment (db : DB) (p : Post) : nat :=
  List.length (filter (fun c => comment_post c =? post_pk p) (comments db)).

Definition annotate (db : DB) (qs : list Post) : list (Post * nat) :=
  map (fun p => (p, Count_comment db p)) qs.

(** The lookup [category__is_published=True]: an inner join on the post's
    category. *)
Definition category__is_published (db : DB) (p : Post) : bool :=
  match post_category p with
  | None => false
  | Some k =>
      existsb (fun c => (category_pk c =? k) && category_is_published c)
        (categories db)
  end.

(** ** Pagination ([paginate_by = 10]) *)

Definition paginate_by : nat := 10.

Inductive PageArg :=
| page_absent
| page_last
| page_number (n : Z)
| page_other.

(** [Paginator.num_pages], with no orphans and an empty first page allowed. *)
Definition num_pages (count : nat) : nat :=
  let hits := Nat.max 1 count in
  Nat.div (hits + (paginate_by - 1)) paginate_by.

(** [Paginator.page(number)], the window [bottom:top] of the object list. *)
Definition Paginator_page {A} (object_list : list A) (number : Z) : M (list A) :=
  if number <? 1 then raise Http404
  else if Z.of_nat (num_pages (List.length object_list)) <? number then raise Http404
  else
    let bottom := (Z.to_nat (number - 1) * paginate_by)%nat in
    ret (firstn paginate_by (skipn bottom object_list)).

(** [MultipleObjectMixin.paginate_queryset]. *)
Definition paginate_queryset {A} (queryset : list A) (page : PageArg) : M (list A) :=
  match page with
  | page_absent => Paginator_page queryset 1
  | page_last =>
      Paginator_page queryset (Z.of_nat (num_pages (List.length queryset)))
  | page_number n => Paginator_page queryset n
  | page_other => raise Http404
  end.

(** ** Requests and responses *)

Inductive Requester :=
| AnonymousUser
| LoggedIn (u : User).

(** [author == request.user] for the stored user with key [author]: model
    instances are equal when their keys are, and no stored user equals the
    anonymous one. *)
Definition same_user (author : Z) (r : Requester) : bool :=
  match r with LoggedIn u => user_pk u =? author | AnonymousUser => false end.

Inductive Method (D : Type) :=
| GET
| POST (data : D).
Arguments GET {D}.
Arguments POST {D} data.

(** The named routes of [blog/urls.py] that the views redirect to, and the
    log-in page of the authentication application.  A redirect is kept as
    the route with its arguments; the text of the URL that [reverse] renders
    from them, and the converters of the route in it, are not modelled. *)
Inductive Route :=
| blog_post_detail (pk : Z)
| blog_profile (username : string)
| login.

(** What is submitted to a [PostForm].  [data_author] stands for an
    [author] key in the submission, which is not a field of the form. *)
Record PostData := mkPostData {
  data_is_published : bool;
  data_title : str;
  data_text : str;
  data_pub_date : option Z;
  data_location : option Z;
  data_category : option Z;
  data_image : string;
  data_author : option Z
}.

Inductive Page :=
| index_html (page_obj : list (Post * nat))
| detail_html (post : Post) (comment_list : list Comment)
| create_html (instance : option Post) (bound : option PostData)
| category_html (category : Z * string * string) (page_obj : list Post)
| profile_html (profile : User) (user : Requester) (page_obj : list (Post * nat))
| comment_html (instance : option Comment) (bound : option str).

Inductive Response :=
| Render (page : Page)
| Redirect (to : Route)
| NotFound
| ServerError.

(** The handlers of [blogicum/urls.py] for what a view raises. *)
Definition handle (m : M Response) : Response :=
  match m with
  | inr r => r
  | inl Http404 => NotFound
  | inl MultipleObjectsReturned => ServerError
  end.

(** The same for a view that writes: a request that raises leaves the
    database as it was. *)
Definition handle_db (db : DB) (m : M (Response * DB)) : Response * DB :=
  match m with
  | inr r => r
  | inl Http404 => (NotFound, db)
  | inl MultipleObjectsReturned => (ServerError, db)
  end.

(** [LoginRequiredMixin.dispatch]: the handler runs for a logged-in
    requester, anyone else is sent to the log-in page. *)
Definition LoginRequiredMixin_dispatch {A} (user : Requester) (no_permission : A)
    (handler : User -> M A) : M A :=
  match user with
  | LoggedIn u => handler u
  | AnonymousUser => ret no_permission
  end.

(** ** The constraints of the schema

    Primary keys, [Category.slug] ([unique=True]) and the user name are
    unique. *)
Fixpoint distinct {K} (eqb : K -> K -> bool) (l : list K) : bool :=
  match l with
  | [] => true
  | k :: t => negb (existsb (eqb k) t) && distinct eqb t
  end.

Definition unique_constraints (db : DB) : bool :=
  distinct Z.eqb (map user_pk (users db))
  && distinct String.eqb (map username (users db))
  && distinct Z.eqb (map category_pk (categories db))
  && distinct String.eqb (map category_slug (categories db))
  && distinct Z.eqb (map location_pk (locations db))
  && distinct Z.eqb (map post_pk (posts db))
  && distinct Z.eqb (map comment_pk (comments db)).

(** The key given to a new row. *)
Definition next_pk (pks : list Z) : Z := 1 + fold_right Z.max 0 pks.

(** ** blog/forms.py *)

(** White space as [str.strip()] takes it: the ASCII controls 9 to 13 and
    28 to 31, the space, and U+0085, U+00A0, U+1680, U+2000 to U+200A,
    U+2028, U+2029, U+202F, U+205F and U+3000. *)
Definition is_space (c : N) : bool :=
  ((9 <=? c) && (c <=? 13) || (28 <=? c) && (c <=? 32)
   || (c =? 133) || (c =? 160) || (c =? 5760)
   || (8192 <=? c) && (c <=? 8202)
   || (c =? 8232) || (c =? 8233) || (c =? 8239) || (c =? 8287)
   || (c =? 12288))%N.

Fixpoint lstrip (s : str) : str :=
  match s with
  | [] => []
  | a :: t => if is_space a then lstrip t else s
  end.

Fixpoint rstrip (s : str) : str :=
  match s with
  | [] => []
  | a :: t =>
      match rstrip t with
      | [] => if is_space a then [] else [a]
      | t' => a :: t'
      end
  end.

(** A [CharField] of a form strips its value and, when required, refuses
    what is then empty. *)
Definition strip (s : str) : str := rstrip (lstrip s).

Definition required (s : str) : option str :=
  match strip s with
  | [] => None
  | v => Some v
  end.

(** [ProhibitNullCharactersValidator], a validator of every [CharField] of a
    form. *)
Definition prohibit_null_characters (s : str) : option str :=
  if existsb (N.eqb 0) s then None else Some s.

(** [MaxLengthValidator]: the length of a [str] is the number of its code
    points. *)
Definition max_length (n : nat) (s : str) : option str :=
  if (List.length s <=? n)%nat then Some s else None.

Definition opt_bind {A B} (o : option A) (k : A -> option B) : option B :=
  match o with Some a => k a | None => None end.

(** A [ModelChoiceField]: the key of a stored row. *)
Definition choice (pks : list Z) (o : option Z) : option Z :=
  opt_bind o (fun k => if mem_pk k pks then Some k else None).

(** [PostForm.cleaned_data]: every field of [Post] but [author] and
    [created_at]. *)
Record PostFields := mkPostFields {
  cleaned_is_published : bool;
  cleaned_title : str;
  cleaned_text : str;
  cleaned_pub_date : Z;
  cleaned_location : Z;
  cleaned_category : Z;
  cleaned_image : string
}.

(** [PostForm(data).is_valid()], with the cleaned data when it is. *)
Definition PostForm (db : DB) (data : PostData) : option PostFields :=
  opt_bind (opt_bind (opt_bind (required (data_title data))
                        prohibit_null_characters) (max_length 256)) (fun title =>
  opt_bind (opt_bind (required (data_text data)) prohibit_null_characters) (fun text =>
  opt_bind (data_pub_date data) (fun pub_date =>
  opt_bind (choice (map location_pk (locations db)) (data_location data)) (fun location =>
  opt_bind (choice (map category_pk (categories db)) (data_category data)) (fun category =>
  Some (mkPostFields (data_is_published data) title text pub_date location
          category (data_image data))))))).

(** [CommentForm]: [fields = ('text',)]. *)
Definition CommentForm (text : str) : option str :=
  opt_bind (required text) prohibit_null_characters.

(** ** blog/urls.py

    The table of routes.  A path is what follows the leading slash of the
    request; [path()] matches the whole of it, piece by piece between the
    slashes. *)
Module Urls.

Inductive Converter := int_converter | slug_converter.

Inductive Piece :=
| lit (text : string)
| arg (converter : Converter) (key : string).

Inductive Value :=
| an_int (n : N)
| a_str (s : string).

Inductive Name :=
| index | post_detail | create_post | edit_post | delete_post
| category_posts | profile | edit_profile
| add_comment | edit_comment | delete_comment.

Definition Name_eqb (a b : Name) : bool :=
  match a, b with
  | index, index | post_detail, post_detail | create_post, create_post
  | edit_post, edit_post | delete_post, delete_post
  | category_posts, category_posts | profile, profile
  | edit_profile, edit_profile | add_comment, add_comment
  | edit_comment, edit_comment | delete_comment, delete_comment => true
  | _, _ => false
  end.

Definition urlpatterns : list (list Piece * Name) :=
  [ ([], index);
    ([lit "posts"; arg int_converter "pk"], post_detail);
    ([lit "posts"; lit "create"], create_post);
    ([lit "posts"; arg int_converter "pk"; lit "edit"], edit_post);
    ([lit "posts"; arg int_converter "pk"; lit "delete"], delete_post);
    ([lit "category"; arg slug_converter "category_slug"], category_posts);
    ([lit "profile"; arg slug_converter "username"], profile);
    ([lit "edit_profile"], edit_profile);
    ([lit "posts"; arg int_converter "pk"; lit "comment"], add_comment);
    ([lit "posts"; arg int_converter "pk"; lit "edit_comment";
      arg int_converter "id"], edit_comment);
    ([lit "posts"; arg int_converter "pk"; lit "delete_comment";
      arg int_converter "id"], delete_comment) ].

(** The slug converter: one or more of the ASCII letters, the digits, the
    hyphen and the underscore. *)
Definition slug_char (a : ascii) : bool :=
  let n := nat_of_ascii a in
  ((48 <=? n) && (n <=? 57) || (65 <=? n) && (n <=? 90)
   || (97 <=? n) && (n <=? 122) || (n =? 45) || (n =? 95))%nat.

Fixpoint all_chars (f : ascii -> bool) (s : string) : bool :=
  match s with
  | EmptyString => true
  | String a t => f a && all_chars f t
  end.

Definition is_slug (s : string) : bool :=
  match s with
  | EmptyString => false
  | _ => all_chars slug_char s
  end.

(** [to_python] of a converter on the text of a piece; [None] when the
    converter does not match it.  The int converter matches one or more
    digits. *)
Definition to_python (c : Converter) (text : string) : option Value :=
  match c with
  | int_converter =>
      option_map (fun d => an_int (N.of_uint d)) (NilZero.uint_of_string text)
  | slug_converter => if is_slug text then Some (a_str text) else None
  end.

(** [to_url]: [str(value)]. *)
Definition to_url (v : Value) : string :=
  match v with
  | an_int n => NilZero.string_of_uint (N.to_uint n)
  | a_str s => s
  end.

(** [path.split('/')]. *)
Fixpoint split (path : string) : list string :=
  match path with
  | EmptyString => [EmptyString]
  | String a t =>
      if Ascii.eqb a "/" then EmptyString :: split t
      else
        match split t with
        | h :: r => String a h :: r
        | [] => [String a EmptyString]
        end
  end.

(** A route matches a path that is its pieces, each followed by a slash;
    the match captures the converted arguments. *)
Fixpoint match_pieces (route : list Piece) (segments : list string)
    : option (list (string * Value)) :=
  match route, segments with
  | [], [EmptyString] => Some []
  | lit text :: route', s :: segments' =>
      if String.eqb text s then match_pieces route' segments' else None
  | arg c key :: route', s :: segments' =>
      match to_python c s, match_pieces route' segments' with
      | Some v, Some kwargs => Some ((key, v) :: kwargs)
      | _, _ => None
      end
  | _, _ => None
  end.

Fixpoint first_match (patterns : list (list Piece * Name))
    (segments : list string) : option (Name * list (string * Value)) :=
  match patterns with
  | [] => None
  | (route, name) :: rest =>
      match match_pieces route segments with
      | Some kwargs => Some (name, kwargs)
      | None => first_match rest segments
      end
  end.

(** [resolve(path)]: the first route of the table that matches; [None] is
    [Resolver404]. *)
Definition resolve (path : string) : option (Name * list (string * Value)) :=
  first_match urlpatterns (split path).

Fixpoint lookup (key : string) (kwargs : list (string * Value)) : option Value :=
  match kwargs with
  | [] => None
  | (k, v) :: rest => if String.eqb k key then Some v else lookup key rest
  end.

(** The path of a route for the given arguments: every argument of the
    route is given and its text is one the converter matches. *)
Fixpoint render (route : list Piece) (kwargs : list (string * Value))
    : option string :=
  match route with
  | [] => Some EmptyString
  | lit text :: route' =>
      option_map (fun rest => text ++ "/" ++ rest)%string (render route' kwargs)
  | arg c key :: route' =>
      match lookup key kwargs with
      | Some v =>
          match to_python c (to_url v), render route' kwargs with
          | Some _, Some rest => Some (to_url v ++ "/" ++ rest)%string
          | _, _ => None
          end
      | None => None
      end
  end.

Definition arity (route : list Piece) : nat :=
  List.length (filter (fun p => match p with arg _ _ => true | lit _ => false end) route).

(** [reverse(name, kwargs=kwargs)]: the route of that name must take
    exactly the given arguments; [None] is [NoReverseMatch]. *)
Fixpoint reverse_in (patterns : list (list Piece * Name)) (name : Name)
    (kwargs : list (string * Value)) : option string :=
  match patterns with
  | [] => None
  | (route, n) :: rest =>
      if Name_eqb n name && (arity route =? List.length kwargs)%nat
      then match render route kwargs with
           | Some path => Some path
           | None => reverse_in rest name kwargs
           end
      else reverse_in rest name kwargs
  end.

Definition reverse (name : Name) (kwargs : list (string * Value)) : option string :=
  reverse_in urlpatterns name kwargs.

(** Two routes that can match the same path: as many pieces, equal fixed
    texts, and no fixed text against an argument whose converter refuses
    it. *)
Fixpoint compatible (r1 r2 : list Piece) : bool :=
  match r1, r2 with
  | [], [] => true
  | lit a :: r1', lit b :: r2' => String.eqb a b && compatible r1' r2'
  | lit a :: r1', arg c _ :: r2' =>
      match to_python c a with Some _ => compatible r1' r2' | None => false end
  | arg c _ :: r1', lit b :: r2' =>
      match to_python c b with Some _ => compatible r1' r2' | None => false end
  | arg _ _ :: r1', arg _ _ :: r2' => compatible r1' r2'
  | _, _ => false
  end.

Definition no_slash (text : string) : bool :=
  all_chars (fun a => negb (Ascii.eqb a "/")) text.

Fixpoint keys (route : list Piece) : list string :=
  match route with
  | [] => []
  | lit _ :: route' => keys route'
  | arg _ key :: route' => key :: keys route'
  end.

(** A route as [path()] takes it: no slash inside a fixed text, and no
    argument name twice. *)
Definition well_formed (route : list Piece) : bool :=
  forallb (fun p => match p with lit text => no_slash text | arg _ _ => true end)
    route
  && distinct String.eqb (keys route).

End Urls.

(** [reverse('blog:profile', kwargs={'username': user})], where the user
    stands for its name: the route with its argument when the table has a
    path for it, [None] for [NoReverseMatch]. *)
Definition reverse_blog_profile (user : User) : option Route :=
  match Urls.reverse Urls.profile
          [("username"%string, Urls.a_str (username user))] with
  | Some _ => Some (blog_profile (username user))
  | None => None
  end.

(** ** blog/views.py *)

(** [MultipleObjectMixin.get_queryset] for [model = Post]: every post, in
    the view's [ordering] when it has one. *)
Definition ListView_get_queryset (ordering : option (Post -> Post -> bool))
    (db : DB) : list Post :=
  match ordering with
  | Some le => order_by le (posts db)
  | None => posts db
  end.

Module IndexList.
Definition ordering := Some pub_date_desc.

Definition get_queryset (db : DB) (now : Z) : list (Post * nat) :=
  let queryset := ListView_get_queryset ordering db in
  let queryset := annotate db queryset in
  filter (fun r => post_is_published (fst r)
                   && category__is_published db (fst r)
                   && (post_pub_date (fst r) <=? now)) queryset.

Definition view (db : DB) (now : Z) (page : PageArg) : Response :=
  handle (
    page_obj <- paginate_queryset (get_queryset db now) page ;;
    ret (Render (index_html page_obj))).
End IndexList.

(** The row a valid [PostForm] saves. *)
Definition construct_instance (pk author created_at : Z) (image : string)
    (form : PostFields) : Post :=
  mkPost pk (cleaned_title form) (cleaned_text form) (cleaned_pub_date form)
    author (Some (cleaned_location form)) (Some (cleaned_category form))
    image (cleaned_is_published form) created_at.

Module PostCreate.
Definition get_success_url (user : User) : option Route :=
  reverse_blog_profile user.

Definition form_valid (db : DB) (now : Z) (user : User) (form : PostFields)
    : Response * DB :=
  let object :=
    construct_instance (next_pk (map post_pk (posts db))) (user_pk user)
      now (cleaned_image form) form in
  let saved :=
    mkDB (users db) (categories db) (locations db) (posts db ++ [object])
      (comments db) in
  match get_success_url user with
  | Some url => (Redirect url, saved)
  | None => (ServerError, saved)
  end.

Definition view (db : DB) (now : Z) (user : Requester)
    (method : Method PostData) : Response * DB :=
  handle_db db (
    LoginRequiredMixin_dispatch user (Redirect login, db) (fun u =>
      match method with
      | GET => ret (Render (create_html None None), db)
      | POST data =>
          match PostForm db data with
          | Some form => ret (form_valid db now u form)
          | None => ret (Render (create_html None (Some data)), db)
          end
      end)).
End PostCreate.

Module PostDetail.
Definition get_context_data (db : DB) (object : Post) : Page :=
  detail_html object (Post_comment db object).

Definition view (db : DB) (user : Requester) (pk : Z) : Response :=
  handle (
    LoginRequiredMixin_dispatch user (Redirect login) (fun _ =>
      object <- get_object_or_404 (fun p => post_pk p =? pk) (posts db) ;;
      ret (Render (get_context_data db object)))).
End PostDetail.

Definition update_post (object : Post) (db : DB) : DB :=
  mkDB (users db) (categories db) (locations db)
    (map (fun p => if post_pk p =? post_pk object then object else p) (posts db))
    (comments db).

Module PostUpdate.
Definition get_success_url (user : User) : option Route :=
  reverse_blog_profile user.

Definition form_valid (db : DB) (user : User) (object : Post)
    (form : PostFields) : Response * DB :=
  let image :=
    match cleaned_image form with
    | EmptyString => post_image object
    | file => file
    end in
  let object :=
    construct_instance (post_pk object) (user_pk user)
      (post_created_at object) image form in
  match get_success_url user with
  | Some url => (Redirect url, update_post object db)
  | None => (ServerError, update_post object db)
  end.

Definition dispatch (db : DB) (user : Requester) (method : Method PostData)
    (pk : Z) : M (Response * DB) :=
  instance <- get_object_or_404 (fun p => post_pk p =? pk) (posts db) ;;
  if negb (same_user (post_author instance) user)
  then ret (Redirect (blog_post_detail pk), db)
  else
    LoginRequiredMixin_dispatch user (Redirect login, db) (fun u =>
      object <- get_object_or_404 (fun p => post_pk p =? pk) (posts db) ;;
      match method with
      | GET => ret (Render (create_html (Some object) None), db)
      | POST data =>
          match PostForm db data with
          | Some form => ret (form_valid db u object form)
          | None => ret (Render (create_html (Some object) (Some data)), db)
          end
      end).

Definition view (db : DB) (user : Requester) (method : Method PostData)
    (pk : Z) : Response * DB :=
  handle_db db (dispatch db user method pk).
End PostUpdate.

Module PostDelete.
Definition get_success_url (user : User) : option Route :=
  reverse_blog_profile user.

(** The posted request deletes the object ([DeletionMixin.delete]), after the
    success URL is reversed; the view's [form_valid] is not on that path. *)
Definition dispatch (db : DB) (user : Requester) (method : Method unit)
    (pk : Z) : M (Response * DB) :=
  instance <- get_object_or_404 (fun p => post_pk p =? pk) (posts db) ;;
  if negb (same_user (post_author instance) user)
  then ret (Redirect (blog_post_detail pk), db)
  else
    LoginRequiredMixin_dispatch user (Redirect login, db) (fun u =>
      object <- get_object_or_404 (fun p => post_pk p =? pk) (posts db) ;;
      match method with
      | GET => ret (Render (create_html (Some object) None), db)
      | POST _ =>
          match get_success_url u with
          | Some url => ret (Redirect url, Post_delete db (post_pk object))
          | None => ret (ServerError, db)
          end
      end).

Definition view (db : DB) (user : Requester) (method : Method unit)
    (pk : Z) : Response * DB :=
  handle_db db (dispatch db user method pk).
End PostDelete.

Module CategoryList.
Definition get_queryset (db : DB) (now : Z) (category_slug' : string)
    : M (list Post) :=
  category <-
    get_object_or_404
      (fun c => String.eqb (category_slug c) category_slug'
                && category_is_published c)
      (categories db) ;;
  let category_posts :=
    filter (fun p => opt_is (category_pk category) (post_category p))
      (posts db) in
  ret (filter (fun p => post_is_published p && (post_pub_date p <=? now))
         category_posts).

Definition view (db : DB) (now : Z) (user : Requester)
    (category_slug' : string) (page : PageArg) : Response :=
  handle (
    LoginRequiredMixin_dispatch user (Redirect login) (fun _ =>
      object_list <- get_queryset db now category_slug' ;;
      page_obj <- paginate_queryset object_list page ;;
      category <-
        get_object_or_404
          (fun c => String.eqb (category_slug c) category_slug')
          (filter category_is_published (categories db)) ;;
      ret (Render (category_html
                     (category_pk category, category_title category,
                      category_description category)
                     page_obj)))).
End CategoryList.

Module ProfileList.
(** [self.author]. *)
Definition author (db : DB) (username' : string) : M User :=
  get_object_or_404 (fun u => String.eqb (username u) username') (users db).

Definition get_queryset (db : DB) (user : Requester) (username' : string)
    : M (list (Post * nat)) :=
  author <- author db username' ;;
  let queryset :=
    if same_user (user_pk author) user
    then filter (fun p => post_author p =? user_pk author) (posts db)
    else filter (fun p => post_author p =? user_pk author)
           (ListView_get_queryset None db) in
  ret (annotate db queryset).

Definition view (db : DB) (user : Requester) (username' : string)
    (page : PageArg) : Response :=
  handle (
    object_list <- get_queryset db user username' ;;
    page_obj <- paginate_queryset object_list page ;;
    profile <- author db username' ;;
    ret (Render (profile_html profile user page_obj))).
End ProfileList.

Definition update_comment (object : Comment) (db : DB) : DB :=
  mkDB (users db) (categories db) (locations db) (posts db)
    (map (fun c => if comment_pk c =? comment_pk object then object else c)
       (comments db)).

Definition set_text (text : str) (c : Comment) : Comment :=
  mkComment (comment_pk c) text (comment_post c) (comment_created_at c)
    (comment_author c).

Module CommentAdd.
Definition get_success_url (post_obj : Post) : Route :=
  blog_post_detail (post_pk post_obj).

Definition form_valid (db : DB) (now : Z) (user : User) (post_obj : Post)
    (text : str) : Response * DB :=
  let object :=
    mkComment (next_pk (map comment_pk (comments db))) text
      (post_pk post_obj) now (user_pk user) in
  (Redirect (get_success_url post_obj),
   mkDB (users db) (categories db) (locations db) (posts db)
     (comments db ++ [object])).

Definition dispatch (db : DB) (now : Z) (user : Requester)
    (method : Method str) (pk : Z) : M (Response * DB) :=
  post_obj <- get_object_or_404 (fun p => post_pk p =? pk) (posts db) ;;
  LoginRequiredMixin_dispatch user (Redirect login, db) (fun u =>
    match method with
    | GET => ret (Render (comment_html None None), db)
    | POST data =>
        match CommentForm data with
        | Some text => ret (form_valid db now u post_obj text)
        | None => ret (Render (comment_html None (Some data)), db)
        end
    end).

Definition view (db : DB) (now : Z) (user : Requester)
    (method : Method str) (pk : Z) : Response * DB :=
  handle_db db (dispatch db now user method pk).
End CommentAdd.

Module CommentUpdate.
Definition get_success_url (post_data : Post) : Route :=
  blog_post_detail (post_pk post_data).

Definition dispatch (db : DB) (user : Requester) (method : Method str)
    (pk id : Z) : M (Response * DB) :=
  comment <- get_object_or_404 (fun c => comment_pk c =? id) (comments db) ;;
  if negb (same_user (comment_author comment) user)
  then ret (Redirect (blog_post_detail pk), db)
  else
    post_data <- get_object_or_404 (fun p => post_pk p =? pk) (posts db) ;;
    LoginRequiredMixin_dispatch user (Redirect login, db) (fun _ =>
      object <- get_object_or_404 (fun c => comment_pk c =? id) (comments db) ;;
      match method with
      | GET => ret (Render (comment_html (Some object) None), db)
      | POST data =>
          match CommentForm data with
          | Some text =>
              ret (Redirect (get_success_url post_data),
                   update_comment (set_text text object) db)
          | None => ret (Render (comment_html (Some object) (Some data)), db)
          end
      end).

Definition view (db : DB) (user : Requester) (method : Method str)
    (pk id : Z) : Response * DB :=
  handle_db db (dispatch db user method pk id).
End CommentUpdate.

Module CommentDelete.
Definition get_success_url (object : Comment) : Route :=
  blog_post_detail (comment_post object).

Definition dispatch (db : DB) (user : Requester) (method : Method unit)
    (pk id : Z) : M (Response * DB) :=
  comment <- get_object_or_404 (fun c => comment_pk c =? id) (comments db) ;;
  if negb (same_user (comment_author comment) user)
  then ret (Redirect (blog_post_detail pk), db)
  else
    post_data <- get_object_or_404 (fun p => post_pk p =? pk) (posts db) ;;
    LoginRequiredMixin_dispatch user (Redirect login, db) (fun _ =>
      object <- get_object_or_404 (fun c => comment_pk c =? id) (comments db) ;;
      match method with
      | GET => ret (Render (comment_html (Some object) None), db)
      | POST _ =>
          ret (Redirect (get_success_url object),
               Comment_delete db (comment_pk object))
      end).

Definition view (db : DB) (user : Requester) (method : Method unit)
    (pk id : Z) : Response * DB :=
  handle_db db (dispatch db user method pk id).
End CommentDelete.

(** ** The visibility invariant of the specification

    A post is publicly listed when it is published, its category is a
    published category and its publication date is not in the future. *)
Definition visible (db : DB) (now : Z) (p : Post) : Prop :=
  post_is_published p = true
  /\ (exists c, In c (categories db)
                /\ post_category p = Some (category_pk c)
                /\ category_is_published c = true)
  /\ post_pub_date p <= now.

Definition visibleb (db : DB) (now : Z) (p : Post) : bool :=
  post_is_published p && category__is_published db p && (post_pub_date p <=? now).

(** The [k]-th window of [paginate_by] rows, counting from 1. *)
Definition window {A} (k : nat) (object_list : list A) : list A :=
  firstn paginate_by (skipn ((k - 1) * paginate_by) object_list).

(** ** Sample data *)
Module Sample.
Definition alice := mkUser 1 "alice".
Definition bob := mkUser 2 "bob".
Definition news := mkCategory 1 "News" "All the news" "news" true 0.
Definition drafts := mkCategory 2 "Drafts" "Hidden" "drafts" false 0.
Definition moscow := mkLocation 1 "Moscow" true 0.

Definition shown := mkPost 1 (txt "A") (txt "first") 90 1 (Some 1) (Some 1) EmptyString true 10.
Definition hidden := mkPost 2 (txt "B") (txt "second") 90 1 (Some 1) (Some 1) EmptyString false 11.
Definition scheduled := mkPost 3 (txt "C") (txt "third") 500 1 (Some 1) (Some 1) EmptyString true 12.
Definition bobs := mkPost 4 (txt "D") (txt "fourth") 95 2 None (Some 2) EmptyString true 13.

Definition c1 := mkComment 1 (txt "late") 1 70 2.
Definition c2 := mkComment 2 (txt "early") 1 60 1.
Definition c3 := mkComment 3 (txt "elsewhere") 4 65 1.

Definition db : DB :=
  mkDB [alice; bob] [news; drafts] [moscow]
    [shown; hidden; scheduled; bobs] [c1; c2; c3].

Definition now : Z := 100.

(** A user whose name is not a slug, as the registration form accepts it. *)
Definition dotted := mkUser 3 "a.b".

Definition db_with_dotted : DB :=
  mkDB [alice; bob; dotted] [news; drafts] [moscow]
    [shown; hidden; scheduled; bobs] [c1; c2; c3].
End Sample.

(** ** Foreign keys that point at stored rows *)

(** The location and the category of every post, when it has one, are
    stored rows. *)
Definition posts_have_targets (db : DB) : Prop :=
  forall p, In p (posts db) ->
    (forall k, post_location p = Some k -> In k (map location_pk (locations db)))
    /\ (forall k, post_category p = Some k -> In k (map category_pk (categories db))).

(** * Properties *)

(** ** Looking a row up by a unique key *)
Section Lookup.
Context {R K : Type} (eqb : K -> K -> bool) (key : R -> K).
Hypothesis eqb_eq : forall a b, eqb a b = true <-> a = b.

Lemma eqb_refl_true (a : K) : eqb a a = true.
Proof. now apply eqb_eq. Qed.

Lemma filter_absent (rows : list R) (k : K) :
  (forall r, In r rows -> key r <> k) ->
  filter (fun r => eqb (key r) k) rows = [].
Proof.
  induction rows as [|a rows IH]; intros Hno; simpl; [reflexivity|].
  destruct (eqb (key a) k) eqn:E.
  - apply eqb_eq in E. exfalso. apply (Hno a); [now left | exact E].
  - apply IH. intros r Hr. apply Hno. now right.
Qed.

Lemma distinct_tail (a : R) (rows : list R) :
  distinct eqb (map key (a :: rows)) = true ->
  (forall r, In r rows -> key r <> key a) /\ distinct eqb (map key rows) = true.
Proof.
  simpl. intros H. apply andb_true_iff in H. destruct H as [Hhd Htl].
  split; [|exact Htl].
  intros r Hr Heq. apply negb_true_iff in Hhd.
  assert (existsb (eqb (key a)) (map key rows) = true) as Hex.
  { apply existsb_exists. exists (key r). split.
    - now apply in_map.
    - apply eqb_eq. now symmetry. }
  congruence.
Qed.

Lemma filter_distinct (rows : list R) (r : R) :
  distinct eqb (map key rows) = true -> In r rows ->
  filter (fun x => eqb (key x) (key r)) rows = [r].
Proof.
  induction rows as [|a rows IH]; intros Hd Hin; [contradiction|].
  apply distinct_tail in Hd. destruct Hd as [Hhd Htl].
  simpl. destruct Hin as [-> | Hin].
  - rewrite eqb_refl_true. f_equal. now apply filter_absent.
  - destruct (eqb (key a) (key r)) eqn:E.
    + apply eqb_eq in E. exfalso. apply (Hhd r Hin). now symmetry.
    + now apply IH.
Qed.

Lemma get_found (rows : list R) (r : R) :
  distinct eqb (map key rows) = true -> In r rows ->
  get_object_or_404 (fun x => eqb (key x) (key r)) rows = inr r.
Proof.
  intros Hd Hin. unfold get_object_or_404.
  now rewrite (filter_distinct _ _ Hd Hin).
Qed.

Lemma get_missing (rows : list R) (k : K) :
  (forall r, In r rows -> key r <> k) ->
  get_object_or_404 (fun x => eqb (key x) k) rows = inl Http404.
Proof.
  intros Hno. unfold get_object_or_404. now rewrite filter_absent.
Qed.

Lemma get_inr_In (cond : R -> bool) (rows : list R) (r : R) :
  get_object_or_404 cond rows = inr r -> In r rows /\ cond r = true.
Proof.
  unfold get_object_or_404. intros H.
  destruct (filter cond rows) as [|x [|y l]] eqn:E; try discriminate.
  injection H as ->. apply filter_In. rewrite E. now left.
Qed.
End Lookup.

Section Constraints.
Variable db : DB.
Hypothesis Hdb : unique_constraints db = true.

Ltac split_constraints :=
  unfold unique_constraints in Hdb;
  repeat (apply andb_true_iff in Hdb; destruct Hdb as [Hdb ?]); assumption.

Lemma users_distinct : distinct String.eqb (map username (users db)) = true.
Proof. split_constraints. Qed.

Lemma categories_distinct :
  distinct String.eqb (map category_slug (categories db)) = true.
Proof. split_constraints. Qed.

Lemma posts_distinct : distinct Z.eqb (map post_pk (posts db)) = true.
Proof. split_constraints. Qed.

Lemma comments_distinct : distinct Z.eqb (map comment_pk (comments db)) = true.
Proof. split_constraints. Qed.

Lemma get_post (p : Post) :
  In p (posts db) ->
  get_object_or_404 (fun x => post_pk x =? post_pk p) (posts db) = inr p.
Proof. apply (get_found Z.eqb post_pk Z.eqb_eq). exact posts_distinct. Qed.

Lemma get_comment (c : Comment) :
  In c (comments db) ->
  get_object_or_404 (fun x => comment_pk x =? comment_pk c) (comments db) = inr c.
Proof. apply (get_found Z.eqb comment_pk Z.eqb_eq). exact comments_distinct. Qed.
End Constraints.

Lemma same_user_other (r : User) (author : Z) :
  user_pk r <> author -> same_user author (LoggedIn r) = false.
Proof. intros H. simpl. now apply Z.eqb_neq. Qed.

Lemma same_user_logged_in (author : Z) (user : Requester) :
  same_user author user = true ->
  exists u, user = LoggedIn u /\ user_pk u = author.
Proof.
  destruct user as [|u]; simpl; [discriminate|].
  intros H. exists u. split; [reflexivity | now apply Z.eqb_eq].
Qed.

(** ** Post detail *)

(** C8: the post-detail view does no visibility filtering.  For a logged-in
    requester, author or not, the page of every stored post is rendered,
    whatever the post's [is_published], category and [pub_date] (none of
    them is read, nor is the clock); the answer is 404 exactly when no post
    has the requested key. *)
Theorem PostDetail_no_visibility_filter (db : DB) (u : User) (pk : Z) :
  unique_constraints db = true ->
  (forall p, In p (posts db) -> post_pk p = pk ->
     PostDetail.view db (LoggedIn u) pk
     = Render (detail_html p (Post_comment db p)))
  /\ (PostDetail.view db (LoggedIn u) pk = NotFound
      <-> ~ exists p, In p (posts db) /\ post_pk p = pk).
Proof.
  intros Hdb.
  assert (forall p, In p (posts db) -> post_pk p = pk ->
            PostDetail.view db (LoggedIn u) pk
            = Render (detail_html p (Post_comment db p))) as Hfound.
  { intros p Hin <-. unfold PostDetail.view. simpl.
    now rewrite (get_post db Hdb p Hin). }
  split; [exact Hfound|]. split.
  - intros H404 [p [Hin Hpk]]. rewrite (Hfound p Hin Hpk) in H404. discriminate.
  - intros Hno. unfold PostDetail.view. simpl.
    rewrite (get_missing Z.eqb post_pk Z.eqb_eq); [reflexivity|].
    intros r Hr Heq. apply Hno. now exists r.
Qed.

Lemma PostDetail_no_visibility_filter_witness :
  PostDetail.view Sample.db (LoggedIn Sample.bob) 2
  = Render (detail_html Sample.hidden (Post_comment Sample.db Sample.hidden)).
Proof.
  apply (PostDetail_no_visibility_filter Sample.db Sample.bob 2).
  - reflexivity.
  - simpl. tauto.
  - reflexivity.
Defined.

(** ** Requests by somebody who is not the author *)

(** C10: in comment edit and delete the authorship check comes before the
    post key of the URL is looked up.  For every stored comment whose author
    is not the requester the answer is the redirect to the detail route of
    the URL's post key and nothing is written, whether or not a post has
    that key; so it is never the 404 page. *)
Theorem comment_author_check_precedes_post_lookup
    (db : DB) (user : Requester) (pk : Z) (c : Comment) :
  unique_constraints db = true ->
  In c (comments db) ->
  same_user (comment_author c) user = false ->
  (forall method,
     CommentUpdate.view db user method pk (comment_pk c)
     = (Redirect (blog_post_detail pk), db))
  /\ (forall method,
        CommentDelete.view db user method pk (comment_pk c)
        = (Redirect (blog_post_detail pk), db)).
Proof.
  intros Hdb Hin Hother. split; intros method.
  - unfold CommentUpdate.view, CommentUpdate.dispatch.
    rewrite (get_comment db Hdb c Hin). simpl. now rewrite Hother.
  - unfold CommentDelete.view, CommentDelete.dispatch.
    rewrite (get_comment db Hdb c Hin). simpl. now rewrite Hother.
Qed.

Lemma comment_author_check_precedes_post_lookup_witness :
  (~ exists p, In p (posts Sample.db) /\ post_pk p = 77)
  /\ CommentUpdate.view Sample.db (LoggedIn Sample.alice) (POST (txt "mine now")) 77 1
     = (Redirect (blog_post_detail 77), Sample.db)
  /\ CommentDelete.view Sample.db AnonymousUser (POST tt) 77 1
     = (Redirect (blog_post_detail 77), Sample.db).
Proof.
  split; [|split].
  - intros [p [Hin Hpk]]. simpl in Hin.
    repeat (destruct Hin as [<- | Hin]; [discriminate Hpk|]). exact Hin.
  - apply (comment_author_check_precedes_post_lookup
             Sample.db (LoggedIn Sample.alice) 77 Sample.c1);
      [reflexivity | simpl; tauto | reflexivity].
  - apply (comment_author_check_precedes_post_lookup
             Sample.db AnonymousUser 77 Sample.c1);
      [reflexivity | simpl; tauto | reflexivity].
Defined.

(** C3: a logged-in requester who is not the author of a stored post or
    comment and asks to edit or delete it, by any method and with any form
    data, is redirected to the post-detail route of the request (the post
    itself; for a comment the post under whose key it is addressed, its own
    post in the links of the site) and the database is left exactly as it
    was: the row is still stored with every field unchanged, and the answer
    is no error page. *)
Theorem non_author_is_redirected_and_nothing_changes
    (db : DB) (r : User) :
  unique_constraints db = true ->
  (forall p, In p (posts db) -> user_pk r <> post_author p ->
     (forall method,
        PostUpdate.view db (LoggedIn r) method (post_pk p)
        = (Redirect (blog_post_detail (post_pk p)), db))
     /\ (forall method,
           PostDelete.view db (LoggedIn r) method (post_pk p)
           = (Redirect (blog_post_detail (post_pk p)), db)))
  /\ (forall c, In c (comments db) -> user_pk r <> comment_author c ->
        (forall method pk,
           CommentUpdate.view db (LoggedIn r) method pk (comment_pk c)
           = (Redirect (blog_post_detail pk), db))
        /\ (forall method pk,
              CommentDelete.view db (LoggedIn r) method pk (comment_pk c)
              = (Redirect (blog_post_detail pk), db))
        /\ (forall method,
              CommentUpdate.view db (LoggedIn r) method (comment_post c) (comment_pk c)
              = (Redirect (blog_post_detail (comment_post c)), db))
        /\ (forall method,
              CommentDelete.view db (LoggedIn r) method (comment_post c) (comment_pk c)
              = (Redirect (blog_post_detail (comment_post c)), db))).
Proof.
  intros Hdb. split.
  - intros p Hin Hother.
    pose proof (same_user_other r Hother) as Hneq.
    split; intros method.
    + unfold PostUpdate.view, PostUpdate.dispatch.
      rewrite (get_post db Hdb p Hin). cbn [bind]. now rewrite Hneq.
    + unfold PostDelete.view, PostDelete.dispatch.
      rewrite (get_post db Hdb p Hin). cbn [bind]. now rewrite Hneq.
  - intros c Hin Hother.
    pose proof (same_user_other r Hother) as Hneq.
    assert (forall method pk,
              CommentUpdate.view db (LoggedIn r) method pk (comment_pk c)
              = (Redirect (blog_post_detail pk), db)) as Hupd.
    { intros method pk. unfold CommentUpdate.view, CommentUpdate.dispatch.
      rewrite (get_comment db Hdb c Hin). cbn [bind]. now rewrite Hneq. }
    assert (forall method pk,
              CommentDelete.view db (LoggedIn r) method pk (comment_pk c)
              = (Redirect (blog_post_detail pk), db)) as Hdel.
    { intros method pk. unfold CommentDelete.view, CommentDelete.dispatch.
      rewrite (get_comment db Hdb c Hin). cbn [bind]. now rewrite Hneq. }
    repeat split; intros; [apply Hupd | apply Hdel | apply Hupd | apply Hdel].
Qed.

Lemma non_author_is_redirected_and_nothing_changes_witness :
  PostUpdate.view Sample.db (LoggedIn Sample.bob)
    (POST (mkPostData true (txt "stolen") (txt "text") (Some 5) (Some 1) (Some 1)
             EmptyString None))
    1
  = (Redirect (blog_post_detail 1), Sample.db)
  /\ CommentDelete.view Sample.db (LoggedIn Sample.alice) (POST tt) 1 1
     = (Redirect (blog_post_detail 1), Sample.db).
Proof.
  pose proof (non_author_is_redirected_and_nothing_changes
                Sample.db Sample.bob eq_refl) as [Hpost _].
  pose proof (non_author_is_redirected_and_nothing_changes
                Sample.db Sample.alice eq_refl) as [_ Hcomment].
  split.
  - apply (Hpost Sample.shown); [simpl; tauto | discriminate].
  - apply (Hcomment Sample.c1); [simpl; tauto | discriminate].
Defined.

(** ** Requests by the author *)

Lemma update_comment_stores (db : DB) (c c' : Comment) :
  In c (comments db) -> comment_pk c' = comment_pk c ->
  In c' (comments (update_comment c' db)).
Proof.
  intros Hin Hpk. unfold update_comment. simpl.
  apply in_map_iff. exists c. split; [|exact Hin].
  rewrite Hpk, Z.eqb_refl. reflexivity.
Qed.

Lemma Comment_delete_removes (db : DB) (pk : Z) (c : Comment) :
  In c (comments (Comment_delete db pk)) <->
  In c (comments db) /\ comment_pk c <> pk.
Proof.
  unfold Comment_delete. simpl. rewrite filter_In, negb_true_iff, Z.eqb_neq.
  reflexivity.
Qed.

Lemma update_comment_rows (db : DB) (c : Comment) (text : str) :
  comments (update_comment (set_text text c) db)
  = map (fun x => if comment_pk x =? comment_pk c
                  then mkComment (comment_pk c) text (comment_post c)
                         (comment_created_at c) (comment_author c)
                  else x)
      (comments db).
Proof. reflexivity. Qed.

(** C9: comment edit and delete find the comment by its key alone and
    never compare the comment's post with the post key of the URL.  For a
    stored comment [c] of the requester and any stored post [p], whether or
    not [c] is a comment on [p], the posted edit with a valid form under
    [p]'s key replaces [c] by the row with the same key, post, creation time
    and author and the cleaned text as its text, and the posted delete under
    [p]'s key removes [c]; every other row is as before. *)
Theorem comment_edit_delete_ignore_url_post
    (db : DB) (user : Requester) (c : Comment) (p : Post) :
  unique_constraints db = true ->
  In c (comments db) ->
  In p (posts db) ->
  same_user (comment_author c) user = true ->
  (forall data text, CommentForm data = Some text ->
     exists db',
       CommentUpdate.view db user (POST data) (post_pk p) (comment_pk c)
       = (Redirect (blog_post_detail (post_pk p)), db')
       /\ comments db'
          = map (fun x => if comment_pk x =? comment_pk c
                          then mkComment (comment_pk c) text (comment_post c)
                                 (comment_created_at c) (comment_author c)
                          else x)
              (comments db)
       /\ In (mkComment (comment_pk c) text (comment_post c)
                (comment_created_at c) (comment_author c))
             (comments db')
       /\ (forall c', In c' (comments db') -> comment_pk c' = comment_pk c ->
                      comment_text c' = text)
       /\ (users db', categories db', locations db', posts db')
          = (users db, categories db, locations db, posts db))
  /\ (exists db',
        CommentDelete.view db user (POST tt) (post_pk p) (comment_pk c)
        = (Redirect (blog_post_detail (comment_post c)), db')
        /\ comments db'
           = filter (fun x => negb (comment_pk x =? comment_pk c)) (comments db)
        /\ ~ In c (comments db')
        /\ (forall c', In c' (comments db') -> comment_pk c' <> comment_pk c)
        /\ (users db', categories db', locations db', posts db')
           = (users db, categories db, locations db, posts db)).
Proof.
  intros Hdb Hc Hp Hown.
  destruct (same_user_logged_in _ _ Hown) as [u [-> Hu]].
  split.
  - intros data text Hvalid.
    exists (update_comment (set_text text c) db).
    split; [|split; [|split; [|split]]].
    + unfold CommentUpdate.view, CommentUpdate.dispatch.
      rewrite (get_comment db Hdb c Hc). cbn [bind]. rewrite Hown. cbn [negb].
      rewrite (get_post db Hdb p Hp). cbn [bind LoginRequiredMixin_dispatch].
      rewrite Hvalid. reflexivity.
    + apply update_comment_rows.
    + rewrite update_comment_rows. apply in_map_iff. exists c.
      split; [now rewrite Z.eqb_refl | exact Hc].
    + intros c' Hc' Hpk. rewrite update_comment_rows in Hc'.
      apply in_map_iff in Hc'. destruct Hc' as [x [<- Hx]].
      destruct (Z.eqb_spec (comment_pk x) (comment_pk c)) as [|Hne];
        [reflexivity | contradiction].
    + reflexivity.
  - exists (Comment_delete db (comment_pk c)).
    split; [|split; [|split; [|split]]].
    + unfold CommentDelete.view, CommentDelete.dispatch.
      rewrite (get_comment db Hdb c Hc). cbn [bind]. rewrite Hown. cbn [negb].
      rewrite (get_post db Hdb p Hp). reflexivity.
    + reflexivity.
    + intros Hin. apply Comment_delete_removes in Hin. now destruct Hin.
    + intros c' Hc'. now apply Comment_delete_removes in Hc'.
    + reflexivity.
Qed.

Lemma comment_edit_delete_ignore_url_post_witness :
  comment_post Sample.c1 <> post_pk Sample.bobs
  /\ (exists db',
        CommentUpdate.view Sample.db (LoggedIn Sample.bob) (POST (txt "  edited "))
          (post_pk Sample.bobs) (comment_pk Sample.c1)
        = (Redirect (blog_post_detail 4), db')
        /\ comments db'
           = [mkComment 1 (txt "edited") 1 70 2; Sample.c2; Sample.c3])
  /\ (exists db',
        CommentDelete.view Sample.db (LoggedIn Sample.bob) (POST tt)
          (post_pk Sample.bobs) (comment_pk Sample.c1)
        = (Redirect (blog_post_detail 1), db')
        /\ comments db' = [Sample.c2; Sample.c3]).
Proof.
  pose proof (@comment_edit_delete_ignore_url_post
                Sample.db (LoggedIn Sample.bob) Sample.c1 Sample.bobs eq_refl)
    as H.
  destruct H as [Hedit Hdelete];
    [simpl; tauto | simpl; tauto | reflexivity |].
  split; [discriminate|]. split.
  - destruct (Hedit (txt "  edited ") (txt "edited") eq_refl)
      as [db' [Hview [Hrows _]]].
    exists db'. split; [exact Hview | exact Hrows].
  - destruct Hdelete as [db' [Hview [Hrows _]]].
    exists db'. split; [exact Hview | exact Hrows].
Defined.

Lemma reverse_blog_profile_slug (u : User) :
  reverse_blog_profile u
  = if Urls.is_slug (username u) then Some (blog_profile (username u)) else None.
Proof.
  unfold reverse_blog_profile, Urls.reverse, Urls.urlpatterns.
  cbn [Urls.reverse_in Urls.Name_eqb andb Urls.arity filter List.length Nat.eqb
       Urls.render Urls.lookup String.eqb Ascii.eqb Bool.eqb option_map
       Urls.to_python Urls.to_url].
  now destruct (Urls.is_slug (username u)).
Qed.

(** What the create view does with a valid form, for every logged-in user:
    one new post whose author is that user, whatever was submitted (an
    [author] key in the submission included); the answer is the redirect to
    the user's profile when the profile route has a path for the user's
    name, and the error page otherwise, with the post stored all the same. *)
Lemma PostCreate_author_is_requester
    (db : DB) (now : Z) (u : User) (data : PostData) (form : PostFields) :
  PostForm db data = Some form ->
  exists object db',
    PostCreate.view db now (LoggedIn u) (POST data)
    = ((if Urls.is_slug (username u)
        then Redirect (blog_profile (username u)) else ServerError), db')
    /\ posts db' = posts db ++ [object]
    /\ post_author object = user_pk u
    /\ (users db', categories db', locations db', comments db')
       = (users db, categories db, locations db, comments db)
    /\ forall forged,
         PostCreate.view db now (LoggedIn u)
           (POST (mkPostData (data_is_published data) (data_title data)
                    (data_text data) (data_pub_date data) (data_location data)
                    (data_category data) (data_image data) forged))
         = ((if Urls.is_slug (username u)
             then Redirect (blog_profile (username u)) else ServerError), db').
Proof.
  intros Hvalid.
  eexists. eexists. split; [|split; [|split; [|split]]].
  - unfold PostCreate.view. cbn [LoginRequiredMixin_dispatch].
    rewrite Hvalid. unfold PostCreate.form_valid, PostCreate.get_success_url.
    rewrite reverse_blog_profile_slug.
    destruct (Urls.is_slug (username u)); cbn [ret handle_db]; reflexivity.
  - reflexivity.
  - reflexivity.
  - reflexivity.
  - intros forged. unfold PostCreate.view. cbn [LoginRequiredMixin_dispatch].
    unfold PostForm in *. cbn [data_title data_text data_pub_date data_location
      data_category data_is_published data_image].
    rewrite Hvalid. unfold PostCreate.form_valid, PostCreate.get_success_url.
    rewrite reverse_blog_profile_slug.
    destruct (Urls.is_slug (username u)); reflexivity.
Qed.

(** C7, at a failing input: the stored user [a.b], logged in, submits a
    valid post-creation form.  The post is stored with that user as its
    author, but the profile route [profile/<slug:username>/] has no path for
    the name, so reversing the success URL fails and the answer is the error
    page, not the redirect to the user's profile. *)
Theorem PostCreate_no_redirect_for_a_user_name_that_is_no_slug :
  In Sample.dotted (users Sample.db_with_dotted)
  /\ unique_constraints Sample.db_with_dotted = true
  /\ PostForm Sample.db_with_dotted
       (mkPostData true (txt "Title") (txt "Body") (Some 50) (Some 1) (Some 1)
          EmptyString None)
     = Some (mkPostFields true (txt "Title") (txt "Body") 50 1 1 EmptyString)
  /\ Urls.reverse Urls.profile [("username"%string, Urls.a_str "a.b")] = None
  /\ PostCreate.get_success_url Sample.dotted = None
  /\ PostCreate.view Sample.db_with_dotted 100 (LoggedIn Sample.dotted)
       (POST (mkPostData true (txt "Title") (txt "Body") (Some 50) (Some 1)
                (Some 1) EmptyString None))
     = (ServerError,
        mkDB (users Sample.db_with_dotted) (categories Sample.db_with_dotted)
          (locations Sample.db_with_dotted)
          (posts Sample.db_with_dotted
           ++ [mkPost 5 (txt "Title") (txt "Body") 50 3 (Some 1) (Some 1)
                 EmptyString true 100])
          (comments Sample.db_with_dotted)).
Proof.
  repeat split; try reflexivity. simpl. tauto.
Qed.

(** ** Deletion *)

Lemma mem_pk_In (k : Z) (ks : list Z) : mem_pk k ks = true <-> In k ks.
Proof.
  unfold mem_pk. rewrite existsb_exists. split.
  - intros [x [Hin Heq]]. apply Z.eqb_eq in Heq. now subst.
  - intros Hin. exists k. split; [exact Hin | apply Z.eqb_refl].
Qed.

Lemma drop_comments_of_In (gone : list Post) (cs : list Comment) (c : Comment) :
  In c (drop_comments_of gone cs) <->
  In c cs /\ ~ In (comment_post c) (map post_pk gone).
Proof.
  unfold drop_comments_of, collect, Fields.Comment_post. simpl.
  rewrite filter_In, negb_true_iff, <- not_true_iff_false, mem_pk_In.
  reflexivity.
Qed.

Lemma drop_comments_of_nil (cs : list Comment) : drop_comments_of [] cs = cs.
Proof.
  unfold drop_comments_of, collect, Fields.Comment_post. simpl.
  induction cs as [|c cs IH]; simpl; [reflexivity | now rewrite IH].
Qed.

Lemma opt_is_Some (pk : Z) (o : option Z) : opt_is pk o = true <-> o = Some pk.
Proof.
  destruct o as [j|]; simpl.
  - rewrite Z.eqb_eq. split; [now intros -> | now intros [= ->]].
  - split; discriminate.
Qed.

Lemma Location_delete_posts (db : DB) (pk : Z) :
  posts (Location_delete db pk) = map (without_location pk) (posts db)
  /\ comments (Location_delete db pk) = comments db.
Proof.
  unfold Location_delete, collect, Fields.Post_location. simpl.
  now rewrite drop_comments_of_nil.
Qed.

Lemma Category_delete_posts (db : DB) (pk : Z) :
  posts (Category_delete db pk) = map (without_category pk) (posts db)
  /\ comments (Category_delete db pk) = comments db.
Proof.
  unfold Category_delete, collect, Fields.Post_category. simpl.
  now rewrite drop_comments_of_nil.
Qed.

Lemma Post_delete_rows (db : DB) (p0 : Post) :
  In p0 (posts db) ->
  (forall p, In p (posts (Post_delete db (post_pk p0))) <->
             In p (posts db) /\ post_pk p <> post_pk p0)
  /\ (forall c, In c (comments (Post_delete db (post_pk p0))) <->
                In c (comments db) /\ comment_post c <> post_pk p0).
Proof.
  intros Hp0. unfold Post_delete. simpl. split.
  - intros p. now rewrite filter_In, negb_true_iff, Z.eqb_neq.
  - intros c. rewrite drop_comments_of_In, in_map_iff.
    split; intros [Hin Hno]; (split; [exact Hin|]).
    + intros Heq. apply Hno. exists p0. split; [now symmetry|].
      apply filter_In. split; [exact Hp0 | apply Z.eqb_refl].
    + intros [p [Hpk Hp]]. apply filter_In in Hp. destruct Hp as [_ Hp].
      apply Z.eqb_eq in Hp. congruence.
Qed.

Lemma User_delete_rows (db : DB) (pk : Z) :
  (forall p, In p (posts (User_delete db pk)) <->
             In p (posts db) /\ post_author p <> pk)
  /\ (forall c, In c (comments (User_delete db pk)) <->
                In c (comments db) /\ comment_author c <> pk
                /\ forall p, In p (posts db) -> post_author p = pk ->
                             post_pk p <> comment_post c).
Proof.
  unfold User_delete, collect, Fields.Post_author, Fields.Comment_author.
  simpl. split.
  - intros p. now rewrite filter_In, negb_true_iff, Z.eqb_neq.
  - intros c. rewrite drop_comments_of_In, filter_In, negb_true_iff, Z.eqb_neq.
    rewrite in_map_iff. split.
    + intros [[Hin Hauthor] Hno]. repeat split; try assumption.
      intros p Hp Hpa Hpk. apply Hno. exists p. split; [exact Hpk|].
      apply filter_In. split; [exact Hp | now apply Z.eqb_eq].
    + intros [Hin [Hauthor Hno]]. repeat split; try assumption.
      intros [p [Hpk Hp]]. apply filter_In in Hp. destruct Hp as [Hp Hpa].
      apply Z.eqb_eq in Hpa. exact (Hno p Hp Hpa Hpk).
Qed.

(** C4: the deletion policies of the foreign keys.  Deleting a location, or
    a category, keeps every post, in place and with all other fields as they
    were, with that key cleared where it pointed at the deleted row, and
    keeps every comment.  Deleting a stored post removes that post and
    exactly the comments on it.  Deleting a user removes exactly the posts
    the user wrote, and with them the comments the user wrote and the
    comments on those posts.  So when every comment's post is stored, it
    still is after any of these deletions. *)
Theorem deletion_policies (db : DB) (pk : Z) :
  (posts (Location_delete db pk) = map (without_location pk) (posts db)
   /\ comments (Location_delete db pk) = comments db
   /\ (forall p, post_location (without_location pk p)
                 = (if opt_is pk (post_location p) then None else post_location p)
                 /\ (post_pk (without_location pk p),
                     post_title (without_location pk p),
                     post_text (without_location pk p),
                     post_pub_date (without_location pk p),
                     post_author (without_location pk p),
                     post_category (without_location pk p),
                     post_image (without_location pk p),
                     post_is_published (without_location pk p),
                     post_created_at (without_location pk p))
                    = (post_pk p, post_title p, post_text p, post_pub_date p,
                       post_author p, post_category p, post_image p,
                       post_is_published p, post_created_at p))
   /\ (forall p, In p (posts (Location_delete db pk)) -> post_location p <> Some pk))
  /\ (posts (Category_delete db pk) = map (without_category pk) (posts db)
      /\ comments (Category_delete db pk) = comments db
      /\ (forall p, post_category (without_category pk p)
                    = (if opt_is pk (post_category p) then None else post_category p)
                    /\ (post_pk (without_category pk p),
                        post_title (without_category pk p),
                        post_text (without_category pk p),
                        post_pub_date (without_category pk p),
                        post_author (without_category pk p),
                        post_location (without_category pk p),
                        post_image (without_category pk p),
                        post_is_published (without_category pk p),
                        post_created_at (without_category pk p))
                       = (post_pk p, post_title p, post_text p, post_pub_date p,
                          post_author p, post_location p, post_image p,
                          post_is_published p, post_created_at p))
      /\ (forall p, In p (posts (Category_delete db pk)) -> post_category p <> Some pk))
  /\ (forall p0, In p0 (posts db) ->
        (forall p, In p (posts (Post_delete db (post_pk p0))) <->
                   In p (posts db) /\ post_pk p <> post_pk p0)
        /\ (forall c, In c (comments (Post_delete db (post_pk p0))) <->
                      In c (comments db) /\ comment_post c <> post_pk p0))
  /\ ((forall p, In p (posts (User_delete db pk)) <->
                 In p (posts db) /\ post_author p <> pk)
      /\ (forall c, In c (comments (User_delete db pk)) <->
                    In c (comments db) /\ comment_author c <> pk
                    /\ forall p, In p (posts db) -> post_author p = pk ->
                                 post_pk p <> comment_post c))
  /\ (comments_have_posts db ->
      comments_have_posts (Location_delete db pk)
      /\ comments_have_posts (Category_delete db pk)
      /\ comments_have_posts (Post_delete db pk)
      /\ comments_have_posts (User_delete db pk)).
Proof.
  destruct (Location_delete_posts db pk) as [Hlp Hlc].
  destruct (Category_delete_posts db pk) as [Hcp Hcc].
  split; [|split; [|split; [|split]]].
  - split; [exact Hlp|]. split; [exact Hlc|]. split.
    + intros p. unfold without_location.
      destruct (opt_is pk (post_location p)); split; reflexivity.
    + intros p Hin. rewrite Hlp in Hin. apply in_map_iff in Hin.
      destruct Hin as [q [<- _]]. unfold without_location.
      destruct (opt_is pk (post_location q)) eqn:E; [discriminate|].
      intros Heq. apply opt_is_Some in Heq. congruence.
  - split; [exact Hcp|]. split; [exact Hcc|]. split.
    + intros p. unfold without_category.
      destruct (opt_is pk (post_category p)); split; reflexivity.
    + intros p Hin. rewrite Hcp in Hin. apply in_map_iff in Hin.
      destruct Hin as [q [<- _]]. unfold without_category.
      destruct (opt_is pk (post_category q)) eqn:E; [discriminate|].
      intros Heq. apply opt_is_Some in Heq. congruence.
  - apply Post_delete_rows.
  - apply User_delete_rows.
  - intros Hparent. split; [|split; [|split]]; intros c Hc.
    + rewrite Hlc in Hc. destruct (Hparent c Hc) as [p [Hp Hpk]].
      exists (without_location pk p). split.
      * rewrite Hlp. now apply in_map.
      * unfold without_location. now destruct (opt_is pk (post_location p)).
    + rewrite Hcc in Hc. destruct (Hparent c Hc) as [p [Hp Hpk]].
      exists (without_category pk p). split.
      * rewrite Hcp. now apply in_map.
      * unfold without_category. now destruct (opt_is pk (post_category p)).
    + unfold Post_delete in *. simpl in *.
      apply drop_comments_of_In in Hc. destruct Hc as [Hc Hno].
      destruct (Hparent c Hc) as [p [Hp Hpk]]. exists p. split; [|exact Hpk].
      apply filter_In. split; [exact Hp|]. apply negb_true_iff, Z.eqb_neq.
      intros Heq. apply Hno. apply in_map_iff. exists p. split; [exact Hpk|].
      apply filter_In. split; [exact Hp | now apply Z.eqb_eq].
    + apply User_delete_rows in Hc. destruct Hc as [Hc [_ Hno]].
      destruct (Hparent c Hc) as [p [Hp Hpk]]. exists p. split; [|exact Hpk].
      apply User_delete_rows. split; [exact Hp|].
      intros Hpa. exact (Hno p Hp Hpa Hpk).
Qed.

Lemma deletion_policies_witness :
  comments_have_posts Sample.db
  /\ comments_have_posts (Post_delete Sample.db 1)
  /\ comments_have_posts (User_delete Sample.db 1).
Proof.
  assert (comments_have_posts Sample.db) as Hparent.
  { intros c Hc. simpl in Hc.
    destruct Hc as [<- | [<- | [<- | []]]];
      [exists Sample.shown | exists Sample.shown | exists Sample.bobs];
      simpl; tauto. }
  split; [exact Hparent|].
  destruct (deletion_policies Sample.db 1) as [_ [_ [_ [_ Hkeep]]]].
  destruct (Hkeep Hparent) as [_ [_ [Hpost Huser]]].
  split; assumption.
Defined.

(** ** Ordering *)
Section Order.
Context {A : Type} (le : A -> A -> bool).
Hypothesis le_total : forall a b, le a b = true \/ le b a = true.
Hypothesis le_trans : forall a b c, le a b = true -> le b c = true -> le a c = true.

Lemma insert_by_perm (x : A) (l : list A) :
  Permutation (insert_by le x l) (x :: l).
Proof.
  induction l as [|y t IH]; simpl; [apply Permutation_refl|].
  destruct (le x y); [apply Permutation_refl|].
  eapply perm_trans; [apply perm_skip, IH | apply perm_swap].
Qed.

Lemma order_by_perm (l : list A) : Permutation (order_by le l) l.
Proof.
  induction l as [|x t IH]; simpl; [constructor|].
  eapply perm_trans; [apply insert_by_perm | now apply perm_skip].
Qed.

Lemma insert_by_sorted (x : A) (l : list A) :
  StronglySorted (fun a b => le a b = true) l ->
  StronglySorted (fun a b => le a b = true) (insert_by le x l).
Proof.
  induction 1 as [|y t Hs IH Hall]; simpl.
  - constructor; constructor.
  - destruct (le x y) eqn:E.
    + constructor; [now constructor|]. constructor; [exact E|].
      eapply Forall_impl; [|exact Hall]. intros z Hz. now apply le_trans with y.
    + constructor; [exact IH|].
      apply (Permutation_Forall (Permutation_sym (insert_by_perm x t))).
      constructor; [|exact Hall].
      destruct (le_total x y) as [H|H]; [congruence | exact H].
Qed.

Lemma order_by_sorted (l : list A) :
  StronglySorted (fun a b => le a b = true) (order_by le l).
Proof.
  induction l as [|x t IH]; simpl; [constructor | now apply insert_by_sorted].
Qed.
End Order.

Lemma StronglySorted_filter {A} (R : A -> A -> Prop) (f : A -> bool) (l : list A) :
  StronglySorted R l -> StronglySorted R (filter f l).
Proof.
  induction 1 as [|x t Hs IH Hall]; simpl; [constructor|].
  destruct (f x); [|exact IH]. constructor; [exact IH|].
  apply Forall_forall. intros y Hy. apply filter_In in Hy.
  rewrite Forall_forall in Hall. now apply Hall.
Qed.

Lemma StronglySorted_map {A B} (R : B -> B -> Prop) (g : A -> B) (l : list A) :
  StronglySorted (fun a b => R (g a) (g b)) l -> StronglySorted R (map g l).
Proof.
  induction 1 as [|x t Hs IH Hall]; simpl; constructor; [exact IH|].
  apply Forall_forall. intros y Hy. apply in_map_iff in Hy.
  destruct Hy as [z [<- Hz]]. rewrite Forall_forall in Hall. now apply Hall.
Qed.

Lemma filter_perm {A} (f : A -> bool) (l l' : list A) :
  Permutation l l' -> Permutation (filter f l) (filter f l').
Proof.
  induction 1 as [|x l l' Hp IH|x y l|l l' l'' H1 IH1 H2 IH2]; simpl.
  - constructor.
  - destruct (f x); [now constructor | exact IH].
  - destruct (f x), (f y); try apply Permutation_refl. apply perm_swap.
  - now apply perm_trans with (filter f l').
Qed.

(** ** Pagination *)

Lemma window_length {A} (k : nat) (l : list A) :
  (List.length (window k l) <= paginate_by)%nat.
Proof. unfold window. apply firstn_le_length. Qed.

Lemma num_pages_covers (n : nat) :
  (1 <= num_pages n /\ n <= num_pages n * paginate_by
   /\ num_pages n * paginate_by < Nat.max 1 n + paginate_by)%nat.
Proof.
  unfold num_pages, paginate_by.
  pose proof (Nat.div_mod_eq (Nat.max 1 n + (10 - 1)) 10) as Hdm.
  pose proof (Nat.mod_upper_bound (Nat.max 1 n + (10 - 1)) 10) as Hlt.
  lia.
Qed.

Lemma concat_windows_from {A} (n : nat) (l : list A) :
  (List.length l <= n * paginate_by)%nat ->
  List.concat (map (fun k => firstn paginate_by (skipn (k * paginate_by) l)) (seq 0 n)) = l.
Proof.
  revert l. induction n as [|n IH]; intros l Hlen.
  - destruct l; [reflexivity | simpl in Hlen; lia].
  - rewrite <- cons_seq, <- seq_shift. cbn [map List.concat]. rewrite map_map.
    cbn [Nat.mul skipn].
    rewrite (map_ext _ (fun k => firstn paginate_by
                                   (skipn (k * paginate_by) (skipn paginate_by l)))).
    + rewrite IH.
      * apply firstn_skipn.
      * rewrite length_skipn. lia.
    + intros k. rewrite skipn_skipn. f_equal. f_equal. lia.
Qed.

Lemma concat_windows {A} (l : list A) :
  List.concat (map (fun k => window k l) (seq 1 (num_pages (List.length l)))) = l.
Proof.
  rewrite <- seq_shift, map_map.
  rewrite (map_ext _ (fun k => firstn paginate_by (skipn (k * paginate_by) l))).
  - apply concat_windows_from. apply num_pages_covers.
  - intros k. unfold window. do 2 f_equal. lia.
Qed.

Lemma Paginator_page_window {A} (l : list A) (k : nat) :
  (1 <= k <= num_pages (List.length l))%nat ->
  Paginator_page l (Z.of_nat k) = inr (window k l).
Proof.
  intros Hk. unfold Paginator_page, window.
  destruct (Z.ltb_spec (Z.of_nat k) 1) as [H|_]; [lia|].
  destruct (Z.ltb_spec (Z.of_nat (num_pages (List.length l))) (Z.of_nat k)) as [H|_];
    [lia|].
  unfold ret. do 3 f_equal. lia.
Qed.

Lemma Paginator_page_outside {A} (l : list A) (number : Z) :
  number < 1 \/ Z.of_nat (num_pages (List.length l)) < number ->
  Paginator_page l number = inl Http404.
Proof.
  intros H. unfold Paginator_page.
  destruct (Z.ltb_spec number 1) as [|H1]; [reflexivity|].
  destruct (Z.ltb_spec (Z.of_nat (num_pages (List.length l))) number);
    [reflexivity | lia].
Qed.

(** ** Listings *)

Lemma category__is_published_spec (db : DB) (p : Post) :
  category__is_published db p = true <->
  exists c, In c (categories db)
            /\ post_category p = Some (category_pk c)
            /\ category_is_published c = true.
Proof.
  unfold category__is_published. destruct (post_category p) as [k|].
  - rewrite existsb_exists. split.
    + intros [c [Hin Hc]]. apply andb_true_iff in Hc. destruct Hc as [Hk Hpub].
      apply Z.eqb_eq in Hk. exists c. repeat split; congruence.
    + intros [c [Hin [Hk Hpub]]]. exists c. split; [exact Hin|].
      injection Hk as ->. now rewrite Z.eqb_refl.
  - split; [discriminate|]. now intros [c [_ [Hk _]]].
Qed.

Lemma visibleb_spec (db : DB) (now : Z) (p : Post) :
  visibleb db now p = true <-> visible db now p.
Proof.
  unfold visibleb, visible.
  rewrite !andb_true_iff, category__is_published_spec, Z.leb_le. tauto.
Qed.

Lemma pub_date_desc_total (p q : Post) :
  pub_date_desc p q = true \/ pub_date_desc q p = true.
Proof. unfold pub_date_desc. rewrite !Z.leb_le. lia. Qed.

Lemma pub_date_desc_trans (p q r : Post) :
  pub_date_desc p q = true -> pub_date_desc q r = true -> pub_date_desc p r = true.
Proof. unfold pub_date_desc. rewrite !Z.leb_le. lia. Qed.

Lemma filter_annotate (db : DB) (f : Post -> bool) (l : list Post) :
  filter (fun r => f (fst r)) (annotate db l) = annotate db (filter f l).
Proof.
  unfold annotate. induction l as [|p l IH]; simpl; [reflexivity|].
  destruct (f p); simpl; now rewrite IH.
Qed.

Lemma map_fst_annotate (db : DB) (l : list Post) : map fst (annotate db l) = l.
Proof.
  unfold annotate. rewrite map_map. simpl. apply map_id.
Qed.

Lemma IndexList_get_queryset_eq (db : DB) (now : Z) :
  IndexList.get_queryset db now
  = annotate db (filter (visibleb db now) (order_by pub_date_desc (posts db))).
Proof.
  unfold IndexList.get_queryset, IndexList.ordering, ListView_get_queryset.
  apply (filter_annotate db (visibleb db now)).
Qed.

(** C2: the index list.  Its queryset holds exactly the stored posts that
    satisfy the visibility invariant, each once per stored row and paired
    with the number of comments on it, in descending order of [pub_date];
    the pages requested by number are its consecutive windows of ten rows,
    which together make up the queryset, and any other page number is
    answered with 404. *)
Theorem IndexList_visible_posts_by_pub_date (db : DB) (now : Z) :
  (forall p n, In (p, n) (IndexList.get_queryset db now) <->
     In p (posts db) /\ visible db now p
     /\ n = List.length (filter (fun c => comment_post c =? post_pk p) (comments db)))
  /\ Permutation (map fst (IndexList.get_queryset db now))
       (filter (visibleb db now) (posts db))
  /\ StronglySorted
       (fun a b => post_pub_date (fst b) <= post_pub_date (fst a))
       (IndexList.get_queryset db now)
  /\ (forall k,
        (1 <= k <= num_pages (List.length (IndexList.get_queryset db now)))%nat ->
        IndexList.view db now (page_number (Z.of_nat k))
        = Render (index_html (window k (IndexList.get_queryset db now)))
        /\ (List.length (window k (IndexList.get_queryset db now)) <= 10)%nat)
  /\ List.concat
       (map (fun k => window k (IndexList.get_queryset db now))
          (seq 1 (num_pages (List.length (IndexList.get_queryset db now)))))
     = IndexList.get_queryset db now
  /\ (forall number,
        number < 1
        \/ Z.of_nat (num_pages (List.length (IndexList.get_queryset db now))) < number ->
        IndexList.view db now (page_number number) = NotFound).
Proof.
  rewrite IndexList_get_queryset_eq.
  pose proof (order_by_perm pub_date_desc (posts db)) as Hperm.
  split; [|split; [|split; [|split; [|split]]]].
  - intros p n. unfold annotate. rewrite in_map_iff. split.
    + intros [q [Heq Hq]]. injection Heq as <- <-.
      apply filter_In in Hq. destruct Hq as [Hq Hv].
      split; [|split].
      * exact (Permutation_in _ Hperm Hq).
      * now apply visibleb_spec.
      * reflexivity.
    + intros [Hin [Hv ->]]. exists p. split; [reflexivity|].
      apply filter_In. split.
      * exact (Permutation_in _ (Permutation_sym Hperm) Hin).
      * now apply visibleb_spec.
  - rewrite map_fst_annotate. now apply filter_perm.
  - unfold annotate. apply StronglySorted_map. simpl.
    apply StronglySorted_filter.
    eapply StronglySorted_ind with (P := StronglySorted _);
      [constructor | | apply (order_by_sorted pub_date_desc
                                 pub_date_desc_total pub_date_desc_trans (posts db))].
    intros a l Hs IH Hall. constructor; [exact IH|].
    eapply Forall_impl; [|exact Hall].
    intros b Hb. unfold pub_date_desc in Hb. now apply Z.leb_le.
  - intros k Hk. split; [|apply window_length].
    unfold IndexList.view. rewrite IndexList_get_queryset_eq.
    cbn [paginate_queryset]. now rewrite Paginator_page_window.
  - apply concat_windows.
  - intros number Hout. unfold IndexList.view.
    rewrite IndexList_get_queryset_eq. cbn [paginate_queryset].
    now rewrite Paginator_page_outside.
Qed.

Lemma IndexList_visible_posts_by_pub_date_witness :
  IndexList.view Sample.db Sample.now (page_number 1)
  = Render (index_html [(Sample.shown, 2%nat)])
  /\ IndexList.view Sample.db Sample.now (page_number 2) = NotFound.
Proof.
  destruct (IndexList_visible_posts_by_pub_date Sample.db Sample.now)
    as [_ [_ [_ [Hpage [_ Hout]]]]].
  split.
  - apply (Hpage 1%nat). vm_compute. split; constructor.
  - apply (Hout 2). right. vm_compute. reflexivity.
Defined.

Lemma filter_andb {A} (f g : A -> bool) (l : list A) :
  filter (fun x => f x && g x) l = filter g (filter f l).
Proof.
  induction l as [|x l IH]; simpl; [reflexivity|].
  destruct (f x); simpl; [destruct (g x)|]; now rewrite IH.
Qed.

Lemma filter_swap {A} (f g : A -> bool) (l : list A) :
  filter f (filter g l) = filter g (filter f l).
Proof.
  rewrite <- !filter_andb. apply filter_ext. intros x. apply andb_comm.
Qed.

Lemma published_category_lookup (db : DB) (c : Category) :
  unique_constraints db = true ->
  In c (categories db) -> category_is_published c = true ->
  get_object_or_404
    (fun x => String.eqb (category_slug x) (category_slug c)
              && category_is_published x)
    (categories db) = inr c
  /\ get_object_or_404
       (fun x => String.eqb (category_slug x) (category_slug c))
       (filter category_is_published (categories db)) = inr c.
Proof.
  intros Hdb Hin Hpub.
  pose proof (filter_distinct String.eqb category_slug String.eqb_eq
                (categories db) c (categories_distinct db Hdb) Hin) as Hone.
  unfold get_object_or_404. split.
  - rewrite filter_andb, Hone. simpl. now rewrite Hpub.
  - rewrite filter_swap, Hone. simpl. now rewrite Hpub.
Qed.

Lemma unpublished_category_lookup (db : DB) (slug : string) :
  (~ exists c, In c (categories db) /\ category_slug c = slug
               /\ category_is_published c = true) ->
  get_object_or_404
    (fun x => String.eqb (category_slug x) slug && category_is_published x)
    (categories db) = inl Http404.
Proof.
  intros Hno. unfold get_object_or_404.
  destruct (filter _ (categories db)) as [|x l] eqn:E; [reflexivity|].
  exfalso. apply Hno. exists x.
  assert (In x (x :: l)) as Hx by now left.
  rewrite <- E in Hx. apply filter_In in Hx. destruct Hx as [Hin Hc].
  apply andb_true_iff in Hc. destruct Hc as [Hs Hp].
  apply String.eqb_eq in Hs. now repeat split.
Qed.

(** C5: the category list.  When no published category has the requested
    slug the queryset raises [Http404], and the logged-in requester gets the
    404 page whatever page is asked for.  Otherwise the queryset is exactly
    the stored posts of that category that satisfy the visibility invariant,
    and the pages requested by number are its consecutive windows of ten
    rows, rendered with the category's id, title and description. *)
Theorem CategoryList_published_category_or_404
    (db : DB) (now : Z) (slug : string) :
  unique_constraints db = true ->
  ((~ exists c, In c (categories db) /\ category_slug c = slug
                /\ category_is_published c = true) ->
   CategoryList.get_queryset db now slug = inl Http404
   /\ forall u page, CategoryList.view db now (LoggedIn u) slug page = NotFound)
  /\ (forall c, In c (categories db) -> category_slug c = slug ->
        category_is_published c = true ->
        exists queryset,
          CategoryList.get_queryset db now slug = inr queryset
          /\ queryset
             = filter (fun p => opt_is (category_pk c) (post_category p)
                                && visibleb db now p) (posts db)
          /\ (forall p, In p queryset <->
                In p (posts db) /\ post_category p = Some (category_pk c)
                /\ visible db now p)
          /\ (forall u k, (1 <= k <= num_pages (List.length queryset))%nat ->
                CategoryList.view db now (LoggedIn u) slug (page_number (Z.of_nat k))
                = Render (category_html
                            (category_pk c, category_title c, category_description c)
                            (window k queryset))
                /\ (List.length (window k queryset) <= 10)%nat)
          /\ List.concat
               (map (fun k => window k queryset)
                  (seq 1 (num_pages (List.length queryset)))) = queryset).
Proof.
  intros Hdb. split.
  - intros Hno. pose proof (unpublished_category_lookup db Hno) as H404.
    assert (CategoryList.get_queryset db now slug = inl Http404) as Hqs.
    { unfold CategoryList.get_queryset. now rewrite H404. }
    split; [exact Hqs|]. intros u page. unfold CategoryList.view.
    cbn [LoginRequiredMixin_dispatch]. now rewrite Hqs.
  - intros c Hin <- Hpub.
    destruct (published_category_lookup db c Hdb Hin Hpub) as [Hget Hctx].
    assert (filter (fun p => post_is_published p && (post_pub_date p <=? now))
              (filter (fun p => opt_is (category_pk c) (post_category p)) (posts db))
            = filter (fun p => opt_is (category_pk c) (post_category p)
                               && visibleb db now p) (posts db)) as Heq.
    { rewrite <- filter_andb. apply filter_ext. intros p.
      unfold visibleb. destruct (opt_is (category_pk c) (post_category p)) eqn:E;
        [|reflexivity].
      apply opt_is_Some in E.
      assert (category__is_published db p = true) as ->.
      { apply category__is_published_spec. now exists c. }
      simpl. now rewrite andb_true_r. }
    assert (CategoryList.get_queryset db now (category_slug c)
            = inr (filter (fun p => opt_is (category_pk c) (post_category p)
                                    && visibleb db now p) (posts db))) as Hqs.
    { unfold CategoryList.get_queryset. rewrite Hget. cbn [bind]. now rewrite Heq. }
    eexists. split; [exact Hqs|]. split; [reflexivity|].
    split; [|split].
    + intros p. rewrite filter_In, andb_true_iff, opt_is_Some, visibleb_spec.
      tauto.
    + intros u k Hk. split; [|apply window_length].
      unfold CategoryList.view. cbn [LoginRequiredMixin_dispatch].
      rewrite Hqs. cbn [bind paginate_queryset].
      rewrite Paginator_page_window by exact Hk. cbn [bind].
      rewrite Hctx. reflexivity.
    + apply concat_windows.
Qed.

Lemma CategoryList_published_category_or_404_witness :
  CategoryList.view Sample.db Sample.now (LoggedIn Sample.bob) "drafts" page_absent
  = NotFound
  /\ CategoryList.get_queryset Sample.db Sample.now "news" = inr [Sample.shown].
Proof.
  destruct (CategoryList_published_category_or_404 Sample.db Sample.now "drafts"
              eq_refl) as [Hhidden _].
  destruct (CategoryList_published_category_or_404 Sample.db Sample.now "news"
              eq_refl) as [_ Hnews].
  split.
  - apply Hhidden. intros [c [Hin [Hslug Hpub]]]. simpl in Hin.
    destruct Hin as [<- | [<- | []]]; discriminate.
  - destruct (Hnews Sample.news) as [queryset [Hqs [-> _]]];
      [simpl; tauto | reflexivity | reflexivity |].
    exact Hqs.
Defined.

(** ** Comments of a post *)

Lemma created_at_asc_total (c d : Comment) :
  created_at_asc c d = true \/ created_at_asc d c = true.
Proof. unfold created_at_asc. rewrite !Z.leb_le. lia. Qed.

Lemma created_at_asc_trans (c d e : Comment) :
  created_at_asc c d = true -> created_at_asc d e = true ->
  created_at_asc c e = true.
Proof. unfold created_at_asc. rewrite !Z.leb_le. lia. Qed.

Lemma Post_comment_sorted (db : DB) (p : Post) :
  StronglySorted (fun c d => comment_created_at c <= comment_created_at d)
    (Post_comment db p).
Proof.
  unfold Post_comment.
  pose proof (order_by_sorted created_at_asc created_at_asc_total
                created_at_asc_trans
                (filter (fun c => comment_post c =? post_pk p) (comments db)))
    as Hs.
  induction Hs as [|c l Hs IH Hall]; constructor; [exact IH|].
  eapply Forall_impl; [|exact Hall].
  intros d Hd. unfold created_at_asc in Hd. now apply Z.leb_le.
Qed.

Lemma Post_comment_perm (db : DB) (p : Post) :
  Permutation (Post_comment db p)
    (filter (fun c => comment_post c =? post_pk p) (comments db)).
Proof. apply order_by_perm. Qed.

Lemma filter_none {A} (f : A -> bool) (l : list A) :
  (forall x, In x l -> f x = false) -> filter f l = [].
Proof.
  induction l as [|x l IH]; intros H; simpl; [reflexivity|].
  rewrite (H x (or_introl eq_refl)). apply IH. intros y Hy. apply H. now right.
Qed.

(** C6: the comments on the detail page of a post are the stored comments
    on that post in ascending order of [created_at], in whatever order the
    rows are stored.  In particular, when a post without comments gets a
    comment and then, at a later time, a second one, its detail page lists
    the two in that order. *)
Theorem detail_comments_by_created_at (db : DB) (p : Post) :
  PostDetail.get_context_data db p = detail_html p (Post_comment db p)
  /\ StronglySorted (fun c d => comment_created_at c <= comment_created_at d)
       (Post_comment db p)
  /\ Permutation (Post_comment db p)
       (filter (fun c => comment_post c =? post_pk p) (comments db))
  /\ (forall db', Permutation (comments db') (comments db) ->
        StronglySorted (fun c d => comment_created_at c <= comment_created_at d)
          (Post_comment db' p)
        /\ Permutation (Post_comment db' p) (Post_comment db p))
  /\ (forall now1 now2 u1 u2 u data1 data2 text1 text2,
        unique_constraints db = true ->
        In p (posts db) ->
        (forall c, In c (comments db) -> comment_post c <> post_pk p) ->
        CommentForm data1 = Some text1 ->
        CommentForm data2 = Some text2 ->
        now1 < now2 ->
        exists pk1 pk2 db1 db2,
          CommentAdd.view db now1 (LoggedIn u1) (POST data1) (post_pk p)
          = (Redirect (blog_post_detail (post_pk p)), db1)
          /\ CommentAdd.view db1 now2 (LoggedIn u2) (POST data2) (post_pk p)
             = (Redirect (blog_post_detail (post_pk p)), db2)
          /\ PostDetail.view db2 (LoggedIn u) (post_pk p)
             = Render (detail_html p
                         [mkComment pk1 text1 (post_pk p) now1 (user_pk u1);
                          mkComment pk2 text2 (post_pk p) now2 (user_pk u2)])).
Proof.
  split; [reflexivity|]. split; [apply Post_comment_sorted|].
  split; [apply Post_comment_perm|]. split.
  - intros db' Hperm. split; [apply Post_comment_sorted|].
    eapply perm_trans; [apply Post_comment_perm|].
    eapply perm_trans; [|apply Permutation_sym, Post_comment_perm].
    now apply filter_perm.
  - intros now1 now2 u1 u2 u data1 data2 text1 text2
      Hdb Hin Hnone Hvalid1 Hvalid2 Hlater.
    pose proof (get_post db Hdb p Hin) as Hget.
    eexists. eexists. eexists. eexists. split; [|split].
    + unfold CommentAdd.view, CommentAdd.dispatch. rewrite Hget.
      cbn [bind LoginRequiredMixin_dispatch]. rewrite Hvalid1.
      unfold CommentAdd.form_valid, CommentAdd.get_success_url.
      cbn [ret handle_db]. reflexivity.
    + unfold CommentAdd.view, CommentAdd.dispatch. cbn [posts]. rewrite Hget.
      cbn [bind LoginRequiredMixin_dispatch]. rewrite Hvalid2.
      unfold CommentAdd.form_valid, CommentAdd.get_success_url.
      cbn [ret handle_db]. reflexivity.
    + unfold PostDetail.view. cbn [LoginRequiredMixin_dispatch posts].
      rewrite Hget. cbn [bind ret handle].
      unfold PostDetail.get_context_data, Post_comment. cbn [comments].
      rewrite <- app_assoc, filter_app.
      rewrite (filter_none (fun c => comment_post c =? post_pk p)).
      * cbn [app filter comment_post]. rewrite Z.eqb_refl.
        cbn [order_by fold_right insert_by]. unfold created_at_asc at 1.
        cbn [comment_created_at].
        destruct (Z.leb_spec now1 now2) as [_|Hbad]; [reflexivity | lia].
      * intros c Hc. apply Z.eqb_neq. now apply Hnone.
Qed.

Lemma detail_comments_by_created_at_witness :
  exists db2,
    snd (CommentAdd.view
           (snd (CommentAdd.view Sample.db 110 (LoggedIn Sample.bob)
                   (POST (txt " first! ")) 2))
           120 (LoggedIn Sample.alice) (POST (txt "second")) 2) = db2
    /\ PostDetail.view db2 (LoggedIn Sample.bob) 2
       = Render (detail_html Sample.hidden
                   [mkComment 4 (txt "first!") 2 110 2; mkComment 5 (txt "second") 2 120 1]).
Proof.
  destruct (detail_comments_by_created_at Sample.db Sample.hidden)
    as [_ [_ [_ [_ Hadd]]]].
  destruct (Hadd 110 120 Sample.bob Sample.alice Sample.bob
              (txt " first! ") (txt "second") (txt "first!") (txt "second"))
    as [pk1 [pk2 [db1 [db2 [H1 [H2 H3]]]]]];
    [reflexivity | simpl; tauto | | reflexivity | reflexivity | lia |].
  - intros c Hc. simpl in Hc. destruct Hc as [<- | [<- | [<- | []]]]; discriminate.
  - exists db2. simpl post_pk in *. rewrite H1. simpl snd. rewrite H2. simpl snd.
    split; [reflexivity|]. rewrite H3.
    assert (pk1 = 4 /\ pk2 = 5) as [-> ->]; [|reflexivity].
    vm_compute in H1. injection H1 as <-. vm_compute in H2. injection H2 as <-.
    vm_compute in H3. injection H3 as <- <-. split; reflexivity.
Defined.

(** ** Profile listing *)

(** Both branches of [ProfileList.get_queryset] select every post of the
    profile's user: the listing does not depend on who asks. *)
Lemma ProfileList_get_queryset_any_requester
    (db : DB) (user : Requester) (author : User) :
  unique_constraints db = true ->
  In author (users db) ->
  ProfileList.get_queryset db user (username author)
  = inr (annotate db
           (filter (fun p => post_author p =? user_pk author) (posts db))).
Proof.
  intros Hdb Hin. unfold ProfileList.get_queryset, ProfileList.author.
  rewrite (get_found String.eqb username String.eqb_eq (users db) author
             (users_distinct db Hdb) Hin).
  cbn [bind ListView_get_queryset].
  now destruct (same_user (user_pk author) user).
Qed.

(** C1, at a failing input: alice has a published post, an unpublished one
    and one dated in the future.  Her profile as listed for bob, and for a
    requester who is not logged in, is the listing she gets herself: it
    holds the unpublished post and the future-dated post, neither of which
    satisfies the visibility invariant. *)
Theorem ProfileList_lists_hidden_posts_to_others :
  ProfileList.get_queryset Sample.db (LoggedIn Sample.bob) "alice"
  = inr [(Sample.shown, 2%nat); (Sample.hidden, 0%nat); (Sample.scheduled, 0%nat)]
  /\ ProfileList.get_queryset Sample.db AnonymousUser "alice"
     = ProfileList.get_queryset Sample.db (LoggedIn Sample.alice) "alice"
  /\ ProfileList.view Sample.db (LoggedIn Sample.bob) "alice" page_absent
     = Render (profile_html Sample.alice (LoggedIn Sample.bob)
                 [(Sample.shown, 2%nat); (Sample.hidden, 0%nat);
                  (Sample.scheduled, 0%nat)])
  /\ post_is_published Sample.hidden = false
  /\ Sample.now < post_pub_date Sample.scheduled
  /\ ~ visible Sample.db Sample.now Sample.hidden
  /\ ~ visible Sample.db Sample.now Sample.scheduled.
Proof.
  repeat split; try reflexivity.
  - intros [Hpub _]. discriminate Hpub.
  - intros [_ [_ Hdate]]. vm_compute in Hdate. now apply Hdate.
Qed.


(** * Further properties of the views *)

Ltac case_get :=
  match goal with
  | |- context [get_object_or_404 ?f ?l] =>
      destruct (get_object_or_404 f l) as [[|]|?] eqn:?
  end.

Ltac case_same_user :=
  match goal with
  | |- context [same_user ?a ?u] => destruct (same_user a u) eqn:?
  end.

Ltac case_form :=
  match goal with
  | |- context [PostForm ?db ?d] => destruct (PostForm db d) eqn:?
  | |- context [CommentForm ?d] => destruct (CommentForm d) eqn:?
  end.

Ltac case_success_url :=
  match goal with
  | |- context [PostCreate.get_success_url ?u] =>
      destruct (PostCreate.get_success_url u)
  | |- context [PostUpdate.get_success_url ?u] =>
      destruct (PostUpdate.get_success_url u)
  | |- context [PostDelete.get_success_url ?u] =>
      destruct (PostDelete.get_success_url u)
  end.

Ltac run_view :=
  unfold PostCreate.view, PostUpdate.view, PostUpdate.dispatch,
    PostDelete.view, PostDelete.dispatch, CommentAdd.view, CommentAdd.dispatch,
    CommentUpdate.view, CommentUpdate.dispatch, CommentDelete.view,
    CommentDelete.dispatch;
  cbn [bind ret raise handle_db LoginRequiredMixin_dispatch negb snd fst].

Lemma missing_post (db : DB) (pk : Z) :
  (forall p, In p (posts db) -> post_pk p <> pk) ->
  get_object_or_404 (fun p => post_pk p =? pk) (posts db) = inl Http404.
Proof. apply (get_missing Z.eqb post_pk Z.eqb_eq). Qed.

Lemma missing_comment (db : DB) (id : Z) :
  (forall c, In c (comments db) -> comment_pk c <> id) ->
  get_object_or_404 (fun c => comment_pk c =? id) (comments db) = inl Http404.
Proof. apply (get_missing Z.eqb comment_pk Z.eqb_eq). Qed.

(** X1: post edit and delete look the post up and compare its author with the
    requester before the log-in check.  So a key that no post has is
    answered with 404 for every requester, logged in or not, and a requester
    who is not logged in is sent to the detail page of a stored post, not to
    the log-in page; nothing is written in either case. *)
Theorem post_edit_delete_check_before_login (db : DB) (pk : Z) :
  ((forall p, In p (posts db) -> post_pk p <> pk) ->
   forall user,
     (forall method, PostUpdate.view db user method pk = (NotFound, db))
     /\ (forall method, PostDelete.view db user method pk = (NotFound, db)))
  /\ (unique_constraints db = true ->
      (exists p, In p (posts db) /\ post_pk p = pk) ->
      (forall method,
         PostUpdate.view db AnonymousUser method pk
         = (Redirect (blog_post_detail pk), db))
      /\ (forall method,
            PostDelete.view db AnonymousUser method pk
            = (Redirect (blog_post_detail pk), db))).
Proof.
  split.
  - intros Hno user. pose proof (missing_post db Hno) as H404.
    split; intros method; run_view; now rewrite H404.
  - intros Hdb [p [Hin <-]]. pose proof (get_post db Hdb p Hin) as Hget.
    split; intros method; run_view; now rewrite Hget.
Qed.

Lemma post_edit_delete_check_before_login_witness :
  PostUpdate.view Sample.db AnonymousUser GET 9 = (NotFound, Sample.db)
  /\ PostDelete.view Sample.db AnonymousUser (POST tt) 2
     = (Redirect (blog_post_detail 2), Sample.db).
Proof.
  destruct (post_edit_delete_check_before_login Sample.db 9) as [Hmissing _].
  destruct (post_edit_delete_check_before_login Sample.db 2) as [_ Hstored].
  split.
  - apply Hmissing. intros p Hp Hpk. simpl in Hp.
    repeat (destruct Hp as [<- | Hp]; [discriminate Hpk|]). exact Hp.
  - apply Hstored; [reflexivity|]. exists Sample.hidden. simpl. tauto.
Defined.

(** X2: comment add looks the post up before the log-in check: for a key that
    no post has the answer is 404 for every requester, and for a stored post
    a requester who is not logged in is sent to the log-in page.  Nothing is
    stored in either case. *)
Theorem CommentAdd_post_lookup_precedes_login (db : DB) (now pk : Z) :
  ((forall p, In p (posts db) -> post_pk p <> pk) ->
   forall user method, CommentAdd.view db now user method pk = (NotFound, db))
  /\ (unique_constraints db = true ->
      (exists p, In p (posts db) /\ post_pk p = pk) ->
      forall method,
        CommentAdd.view db now AnonymousUser method pk = (Redirect login, db)).
Proof.
  split.
  - intros Hno user method. run_view. now rewrite (missing_post db Hno).
  - intros Hdb [p [Hin <-]] method. run_view.
    now rewrite (get_post db Hdb p Hin).
Qed.

Lemma CommentAdd_post_lookup_precedes_login_witness :
  CommentAdd.view Sample.db 100 (LoggedIn Sample.bob) (POST (txt "hello")) 9
  = (NotFound, Sample.db)
  /\ CommentAdd.view Sample.db 100 AnonymousUser (POST (txt "hello")) 1
     = (Redirect login, Sample.db).
Proof.
  destruct (CommentAdd_post_lookup_precedes_login Sample.db 100 9) as [Hmissing _].
  destruct (CommentAdd_post_lookup_precedes_login Sample.db 100 1) as [_ Hstored].
  split.
  - apply Hmissing. intros p Hp Hpk. simpl in Hp.
    repeat (destruct Hp as [<- | Hp]; [discriminate Hpk|]). exact Hp.
  - apply Hstored; [reflexivity|]. exists Sample.shown. simpl. tauto.
Defined.

(** X3: comment edit and delete look the comment up first: a comment key that
    no comment has is answered with 404 for every requester and every post
    key in the URL.  For the comment's author the post key of the URL is
    looked up next, and a key that no post has is answered with 404 with the
    comment left as it was, whatever is posted. *)
Theorem comment_edit_delete_lookups (db : DB) (pk id : Z) :
  ((forall c, In c (comments db) -> comment_pk c <> id) ->
   forall user,
     (forall method, CommentUpdate.view db user method pk id = (NotFound, db))
     /\ (forall method, CommentDelete.view db user method pk id = (NotFound, db)))
  /\ (unique_constraints db = true ->
      forall c user, In c (comments db) -> comment_pk c = id ->
        same_user (comment_author c) user = true ->
        (forall p, In p (posts db) -> post_pk p <> pk) ->
        (forall method, CommentUpdate.view db user method pk id = (NotFound, db))
        /\ (forall method, CommentDelete.view db user method pk id = (NotFound, db))).
Proof.
  split.
  - intros Hno user. pose proof (missing_comment db Hno) as H404.
    split; intros method; run_view; now rewrite H404.
  - intros Hdb c user Hin <- Hown Hno.
    pose proof (get_comment db Hdb c Hin) as Hget.
    pose proof (missing_post db Hno) as H404.
    split; intros method; run_view; rewrite Hget; cbn [bind];
      rewrite Hown; cbn [negb]; now rewrite H404.
Qed.

Lemma comment_edit_delete_lookups_witness :
  CommentUpdate.view Sample.db (LoggedIn Sample.bob) (POST (txt "x")) 1 9
  = (NotFound, Sample.db)
  /\ CommentDelete.view Sample.db (LoggedIn Sample.bob) (POST tt) 77 1
     = (NotFound, Sample.db).
Proof.
  destruct (comment_edit_delete_lookups Sample.db 1 9) as [Hmissing _].
  destruct (comment_edit_delete_lookups Sample.db 77 1) as [_ Hauthor].
  split.
  - apply Hmissing. intros c Hc Hpk. simpl in Hc.
    repeat (destruct Hc as [<- | Hc]; [discriminate Hpk|]). exact Hc.
  - apply (Hauthor eq_refl Sample.c1 (LoggedIn Sample.bob));
      [simpl; tauto | reflexivity | reflexivity |].
    intros p Hp Hpk. simpl in Hp.
    repeat (destruct Hp as [<- | Hp]; [discriminate Hpk|]). exact Hp.
Defined.

(** X4: no view writes on a GET request, for a requester who is not logged in,
    or on a posted form that does not validate: the database comes back as
    it was, whatever the keys in the URL. *)
Theorem requests_that_never_write (db : DB) (now pk id : Z) :
  (forall user,
     snd (PostCreate.view db now user GET) = db
     /\ snd (PostUpdate.view db user GET pk) = db
     /\ snd (PostDelete.view db user GET pk) = db
     /\ snd (CommentAdd.view db now user GET pk) = db
     /\ snd (CommentUpdate.view db user GET pk id) = db
     /\ snd (CommentDelete.view db user GET pk id) = db)
  /\ (forall post_method comment_method delete_method,
        snd (PostCreate.view db now AnonymousUser post_method) = db
        /\ snd (PostUpdate.view db AnonymousUser post_method pk) = db
        /\ snd (PostDelete.view db AnonymousUser delete_method pk) = db
        /\ snd (CommentAdd.view db now AnonymousUser comment_method pk) = db
        /\ snd (CommentUpdate.view db AnonymousUser comment_method pk id) = db
        /\ snd (CommentDelete.view db AnonymousUser delete_method pk id) = db)
  /\ (forall user data text,
        PostForm db data = None -> CommentForm text = None ->
        snd (PostCreate.view db now user (POST data)) = db
        /\ snd (PostUpdate.view db user (POST data) pk) = db
        /\ snd (CommentAdd.view db now user (POST text) pk) = db
        /\ snd (CommentUpdate.view db user (POST text) pk id) = db).
Proof.
  split; [|split].
  - intros user. repeat split; run_view; repeat case_get; cbn;
      try case_same_user; cbn; destruct user; cbn; repeat case_get;
      reflexivity.
  - intros post_method comment_method delete_method.
    repeat split; run_view; repeat case_get; cbn; reflexivity.
  - intros user data text Hpost Hcomment.
    repeat split; run_view; repeat case_get; cbn;
      try case_same_user; cbn; destruct user; cbn; repeat case_get;
      cbn; rewrite ?Hpost, ?Hcomment; reflexivity.
Qed.

Lemma requests_that_never_write_witness :
  snd (CommentUpdate.view Sample.db (LoggedIn Sample.bob) (POST (txt "   ")) 1 1)
  = Sample.db.
Proof.
  destruct (requests_that_never_write Sample.db 0 1 1) as [_ [_ Hinvalid]].
  destruct (Hinvalid (LoggedIn Sample.bob)
              (mkPostData true [] [] None None None
                 EmptyString None)
              (txt "   ") eq_refl eq_refl) as [_ [_ [_ H]]].
  exact H.
Defined.

(** ** What every request keeps *)

Lemma distinct_filter {R} (key : R -> Z) (f : R -> bool) (l : list R) :
  distinct Z.eqb (map key l) = true ->
  distinct Z.eqb (map key (filter f l)) = true.
Proof.
  induction l as [|a l IH]; [reflexivity|].
  intros Hd. apply (distinct_tail Z.eqb key Z.eqb_eq) in Hd.
  destruct Hd as [Hhd Htl]. simpl. destruct (f a); [|now apply IH].
  simpl. apply andb_true_iff. split; [|now apply IH].
  apply negb_true_iff. destruct (existsb _ _) eqn:E; [|reflexivity].
  exfalso. apply existsb_exists in E. destruct E as [k [Hk Heq]].
  apply Z.eqb_eq in Heq. subst k. apply in_map_iff in Hk.
  destruct Hk as [r [Hkey Hr]]. apply filter_In in Hr.
  now apply (Hhd r (proj1 Hr)).
Qed.

Lemma distinct_app_fresh (l : list Z) (k : Z) :
  distinct Z.eqb l = true -> (forall x, In x l -> x <> k) ->
  distinct Z.eqb (l ++ [k]) = true.
Proof.
  induction l as [|a l IH]; intros Hd Hfresh; [reflexivity|].
  simpl in *. apply andb_true_iff in Hd. destruct Hd as [Hhd Htl].
  apply andb_true_iff. split.
  - rewrite existsb_app. simpl. apply negb_true_iff in Hhd. rewrite Hhd. simpl.
    rewrite orb_false_r. apply negb_true_iff, Z.eqb_neq.
    apply Hfresh. now left.
  - apply IH; [exact Htl|]. intros x Hx. apply Hfresh. now right.
Qed.

Lemma next_pk_fresh (l : list Z) (x : Z) : In x l -> x < next_pk l.
Proof.
  unfold next_pk. induction l as [|a l IH]; [contradiction|].
  cbn [fold_right]. intros [-> | Hin]; [lia|]. specialize (IH Hin). lia.
Qed.

Lemma distinct_app_next_pk (l : list Z) :
  distinct Z.eqb l = true -> distinct Z.eqb (l ++ [next_pk l]) = true.
Proof.
  intros Hd. apply distinct_app_fresh; [exact Hd|].
  intros x Hx. pose proof (next_pk_fresh l x Hx). lia.
Qed.

Lemma map_replace_key {R} (key : R -> Z) (o : R) (l : list R) :
  map key (map (fun r => if key r =? key o then o else r) l) = map key l.
Proof.
  rewrite map_map. apply map_ext. intros r.
  destruct (Z.eqb_spec (key r) (key o)); congruence.
Qed.

Lemma unique_constraints_rows (db db' : DB) :
  unique_constraints db = true ->
  users db' = users db -> categories db' = categories db ->
  locations db' = locations db ->
  distinct Z.eqb (map post_pk (posts db')) = true ->
  distinct Z.eqb (map comment_pk (comments db')) = true ->
  unique_constraints db' = true.
Proof.
  unfold unique_constraints. intros Hdb -> -> -> Hp Hc.
  repeat (apply andb_true_iff in Hdb; destruct Hdb as [Hdb ?]).
  repeat (apply andb_true_iff; split); assumption.
Qed.

Lemma drop_comments_of_filter (gone : list Post) (cs : list Comment) :
  drop_comments_of gone cs
  = filter (fun c => negb (mem_pk (comment_post c) (map post_pk gone))) cs.
Proof. reflexivity. Qed.

Ltac keep_unique Hdb :=
  first
    [ exact Hdb
    | apply (@unique_constraints_rows _ _ Hdb); try reflexivity;
      cbn [posts comments update_post update_comment Post_delete
           Comment_delete];
      rewrite ?drop_comments_of_filter, ?map_app; cbn [map];
      first
        [ apply distinct_app_next_pk
        | rewrite map_replace_key
        | apply distinct_filter
        | idtac ];
      first [ apply (posts_distinct _ Hdb) | apply (comments_distinct _ Hdb) ] ].

(** X5: every request to a view that writes leaves the keys unique: primary
    keys, category slugs and user names, whatever the requester, the method,
    the form data and the keys in the URL. *)
Theorem views_keep_unique_constraints (db : DB) (now pk id : Z)
    (user : Requester) :
  unique_constraints db = true ->
  (forall method, unique_constraints (snd (PostCreate.view db now user method)) = true)
  /\ (forall method, unique_constraints (snd (PostUpdate.view db user method pk)) = true)
  /\ (forall method, unique_constraints (snd (PostDelete.view db user method pk)) = true)
  /\ (forall method, unique_constraints (snd (CommentAdd.view db now user method pk)) = true)
  /\ (forall method, unique_constraints (snd (CommentUpdate.view db user method pk id)) = true)
  /\ (forall method, unique_constraints (snd (CommentDelete.view db user method pk id)) = true).
Proof.
  intros Hdb.
  repeat split; intros method; run_view; repeat case_get; cbn [bind snd];
    try case_same_user; cbn [negb bind snd]; try (keep_unique Hdb);
    destruct user; cbn [LoginRequiredMixin_dispatch bind ret snd];
    repeat case_get; cbn [bind snd]; try (keep_unique Hdb);
    destruct method; cbn [snd]; try (keep_unique Hdb);
    try case_form; cbn [snd]; try (keep_unique Hdb).
  all: unfold PostCreate.form_valid, PostUpdate.form_valid,
         CommentAdd.form_valid, construct_instance, set_text;
       try case_success_url; cbn [handle_db ret snd]; keep_unique Hdb.
Qed.

Lemma views_keep_unique_constraints_witness :
  unique_constraints
    (snd (CommentAdd.view Sample.db 100 (LoggedIn Sample.bob)
            (POST (txt "hello")) 2)) = true
  /\ unique_constraints
       (snd (PostDelete.view Sample.db (LoggedIn Sample.alice) (POST tt) 1)) = true.
Proof.
  destruct (views_keep_unique_constraints Sample.db 100 2 0 (LoggedIn Sample.bob)
              eq_refl) as [_ [_ [_ [Hadd _]]]].
  destruct (views_keep_unique_constraints Sample.db 100 1 0 (LoggedIn Sample.alice)
              eq_refl) as [_ [_ [Hdelete _]]].
  split; [apply Hadd | apply Hdelete].
Defined.

Lemma PostForm_choices (db : DB) (data : PostData) (form : PostFields) :
  PostForm db data = Some form ->
  In (cleaned_location form) (map location_pk (locations db))
  /\ In (cleaned_category form) (map category_pk (categories db)).
Proof.
  unfold PostForm, opt_bind, choice, opt_bind.
  destruct (required (data_title data)) as [title|]; [|discriminate].
  destruct (prohibit_null_characters title) as [title0|]; [|discriminate].
  destruct (max_length 256 title0) as [title'|]; [|discriminate].
  destruct (required (data_text data)) as [text|]; [|discriminate].
  destruct (prohibit_null_characters text) as [text'|]; [|discriminate].
  destruct (data_pub_date data) as [pub_date|]; [|discriminate].
  destruct (data_location data) as [l|]; [|discriminate].
  destruct (mem_pk l (map location_pk (locations db))) eqn:El; [|discriminate].
  destruct (data_category data) as [c|]; [|discriminate].
  destruct (mem_pk c (map category_pk (categories db))) eqn:Ec; [|discriminate].
  intros [= <-]. simpl. split; now apply mem_pk_In.
Qed.

Section ForeignKeys.
Variable db : DB.
Hypothesis Hparent : comments_have_posts db.
Hypothesis Htarget : posts_have_targets db.

Lemma add_post_keeps_foreign_keys (o : Post) :
  (forall k, post_location o = Some k -> In k (map location_pk (locations db))) ->
  (forall k, post_category o = Some k -> In k (map category_pk (categories db))) ->
  comments_have_posts
    (mkDB (users db) (categories db) (locations db) (posts db ++ [o]) (comments db))
  /\ posts_have_targets
       (mkDB (users db) (categories db) (locations db) (posts db ++ [o]) (comments db)).
Proof.
  intros Hl Hc. split.
  - intros c Hin. destruct (Hparent c Hin) as [p [Hp Hpk]].
    exists p. split; [|exact Hpk]. simpl. apply in_or_app. now left.
  - intros p Hin. simpl in Hin. apply in_app_or in Hin.
    destruct Hin as [Hin | [<- | []]]; [now apply Htarget | now split].
Qed.

Lemma update_post_keeps_foreign_keys (o : Post) :
  (forall k, post_location o = Some k -> In k (map location_pk (locations db))) ->
  (forall k, post_category o = Some k -> In k (map category_pk (categories db))) ->
  comments_have_posts (update_post o db)
  /\ posts_have_targets (update_post o db).
Proof.
  intros Hl Hc. split.
  - intros c Hin. destruct (Hparent c Hin) as [p [Hp Hpk]].
    exists (if post_pk p =? post_pk o then o else p). split.
    + unfold update_post. simpl.
      apply (in_map (fun p => if post_pk p =? post_pk o then o else p)), Hp.
    + destruct (Z.eqb_spec (post_pk p) (post_pk o)); congruence.
  - intros p Hin. unfold update_post in Hin. simpl in Hin.
    apply in_map_iff in Hin. destruct Hin as [q [<- Hq]].
    destruct (post_pk q =? post_pk o); [now split | now apply Htarget].
Qed.

Lemma Post_delete_keeps_foreign_keys (pk : Z) :
  comments_have_posts (Post_delete db pk)
  /\ posts_have_targets (Post_delete db pk).
Proof.
  split.
  - intros c Hc. unfold Post_delete in *. simpl in *.
    apply drop_comments_of_In in Hc. destruct Hc as [Hc Hno].
    destruct (Hparent c Hc) as [p [Hp Hpk]]. exists p. split; [|exact Hpk].
    apply filter_In. split; [exact Hp|]. apply negb_true_iff, Z.eqb_neq.
    intros Heq. apply Hno. apply in_map_iff. exists p. split; [exact Hpk|].
    apply filter_In. split; [exact Hp | now apply Z.eqb_eq].
  - intros p Hin. unfold Post_delete in Hin. simpl in Hin.
    apply filter_In in Hin. now apply Htarget.
Qed.

Lemma add_comment_keeps_foreign_keys (o : Comment) (p : Post) :
  In p (posts db) -> comment_post o = post_pk p ->
  comments_have_posts
    (mkDB (users db) (categories db) (locations db) (posts db) (comments db ++ [o]))
  /\ posts_have_targets
       (mkDB (users db) (categories db) (locations db) (posts db) (comments db ++ [o])).
Proof.
  intros Hp Ho. split; [|exact Htarget].
  intros c Hin. simpl in Hin. apply in_app_or in Hin.
  destruct Hin as [Hin | [<- | []]]; [now apply Hparent|].
  exists p. now split.
Qed.

Lemma update_comment_keeps_foreign_keys (text : str) (c : Comment) :
  In c (comments db) ->
  comments_have_posts (update_comment (set_text text c) db)
  /\ posts_have_targets (update_comment (set_text text c) db).
Proof.
  intros Hc. split; [|exact Htarget].
  intros c' Hin. unfold update_comment in Hin. simpl in Hin.
  apply in_map_iff in Hin. destruct Hin as [d [<- Hd]].
  change (posts (update_comment (set_text text c) db)) with (posts db).
  destruct (comment_pk d =? comment_pk c);
    [exact (Hparent c Hc) | exact (Hparent d Hd)].
Qed.

Lemma Comment_delete_keeps_foreign_keys (pk : Z) :
  comments_have_posts (Comment_delete db pk)
  /\ posts_have_targets (Comment_delete db pk).
Proof.
  split; [|exact Htarget].
  intros c Hin. apply Comment_delete_removes in Hin. now apply Hparent.
Qed.
End ForeignKeys.

Ltac use_get :=
  repeat match goal with
         | H : get_object_or_404 _ _ = inr _ |- _ =>
             apply get_inr_In in H; destruct H as [? _]
         end.

(** X6: every request to a view that writes keeps the foreign keys on stored
    rows: when every comment's post and every post's location and category
    are stored before the request, they are after it, whatever the
    requester, the method, the form data and the keys in the URL. *)
Theorem views_keep_foreign_keys (db : DB) (now pk id : Z) (user : Requester) :
  comments_have_posts db -> posts_have_targets db ->
  (forall method,
     comments_have_posts (snd (PostCreate.view db now user method))
     /\ posts_have_targets (snd (PostCreate.view db now user method)))
  /\ (forall method,
        comments_have_posts (snd (PostUpdate.view db user method pk))
        /\ posts_have_targets (snd (PostUpdate.view db user method pk)))
  /\ (forall method,
        comments_have_posts (snd (PostDelete.view db user method pk))
        /\ posts_have_targets (snd (PostDelete.view db user method pk)))
  /\ (forall method,
        comments_have_posts (snd (CommentAdd.view db now user method pk))
        /\ posts_have_targets (snd (CommentAdd.view db now user method pk)))
  /\ (forall method,
        comments_have_posts (snd (CommentUpdate.view db user method pk id))
        /\ posts_have_targets (snd (CommentUpdate.view db user method pk id)))
  /\ (forall method,
        comments_have_posts (snd (CommentDelete.view db user method pk id))
        /\ posts_have_targets (snd (CommentDelete.view db user method pk id))).
Proof.
  intros Hparent Htarget.
  assert (comments_have_posts db /\ posts_have_targets db) as Hsame by now split.
  split; [|split; [|split; [|split; [|split]]]]; intros method; run_view;
    repeat case_get; cbn [bind snd]; try exact Hsame;
    try case_same_user; cbn [negb bind snd]; try exact Hsame;
    destruct user; cbn [LoginRequiredMixin_dispatch bind ret snd];
    try exact Hsame; repeat case_get; cbn [bind snd]; try exact Hsame;
    destruct method; cbn [snd]; try exact Hsame;
    try case_form; cbn [handle_db ret snd]; try exact Hsame; use_get.
  - destruct (PostForm_choices _ _ Heqo) as [Hl Hc].
    unfold PostCreate.form_valid. case_success_url; cbn [snd];
      (apply add_post_keeps_foreign_keys; try assumption;
       unfold construct_instance; cbn; now intros k [= <-]).
  - destruct (PostForm_choices _ _ Heqo) as [Hl Hc].
    unfold PostUpdate.form_valid. case_success_url; cbn [snd];
      (apply update_post_keeps_foreign_keys; try assumption;
       unfold construct_instance; cbn; now intros k [= <-]).
  - case_success_url; cbn [snd]; [|exact Hsame].
    now apply Post_delete_keeps_foreign_keys.
  - unfold CommentAdd.form_valid. cbn [snd].
    eapply add_comment_keeps_foreign_keys; try eassumption. reflexivity.
  - now apply update_comment_keeps_foreign_keys.
  - now apply Comment_delete_keeps_foreign_keys.
Qed.

Lemma Sample_foreign_keys :
  comments_have_posts Sample.db /\ posts_have_targets Sample.db.
Proof.
  split.
  - intros c Hc. simpl in Hc.
    destruct Hc as [<- | [<- | [<- | []]]];
      [exists Sample.shown | exists Sample.shown | exists Sample.bobs];
      simpl; tauto.
  - intros p Hp. simpl in Hp.
    destruct Hp as [<- | [<- | [<- | [<- | []]]]]; simpl;
      split; intros k [= <-]; tauto.
Qed.

Lemma views_keep_foreign_keys_witness :
  comments_have_posts
    (snd (PostDelete.view Sample.db (LoggedIn Sample.alice) (POST tt) 1))
  /\ posts_have_targets
       (snd (PostCreate.view Sample.db 100 (LoggedIn Sample.bob)
               (POST (mkPostData true (txt "T") (txt "B") (Some 5) (Some 1) (Some 2)
                        EmptyString None)))).
Proof.
  destruct Sample_foreign_keys as [Hparent Htarget].
  destruct (views_keep_foreign_keys 100 1 0 (LoggedIn Sample.alice)
              Hparent Htarget) as [_ [_ [Hdelete _]]].
  destruct (views_keep_foreign_keys 100 1 0 (LoggedIn Sample.bob)
              Hparent Htarget) as [Hcreate _].
  split; [apply Hdelete | apply Hcreate].
Defined.

(** ** The author's requests *)

Lemma distinct_key_inj {R} (key : R -> Z) (l : list R) (a b : R) :
  distinct Z.eqb (map key l) = true ->
  In a l -> In b l -> key a = key b -> a = b.
Proof.
  intros Hd Ha Hb Hk.
  pose proof (filter_distinct Z.eqb key Z.eqb_eq l b Hd Hb) as Hone.
  assert (In a (filter (fun x => key x =? key b) l)) as Hin.
  { apply filter_In. split; [exact Ha | now apply Z.eqb_eq]. }
  rewrite Hone in Hin. destruct Hin as [<- | []]. reflexivity.
Qed.

Lemma filter_map_commute {A} (f : A -> bool) (g : A -> A) (l : list A) :
  (forall x, f (g x) = f x) -> filter f (map g l) = map g (filter f l).
Proof.
  intros Hf. induction l as [|x l IH]; simpl; [reflexivity|].
  rewrite Hf. destruct (f x); simpl; now rewrite IH.
Qed.

Lemma insert_by_map {A} (le : A -> A -> bool) (g : A -> A) (x : A) (l : list A) :
  (forall a b, le (g a) (g b) = le a b) ->
  insert_by le (g x) (map g l) = map g (insert_by le x l).
Proof.
  intros Hle. induction l as [|y l IH]; simpl; [reflexivity|].
  rewrite Hle. destruct (le x y); simpl; [reflexivity | now rewrite IH].
Qed.

Lemma order_by_map {A} (le : A -> A -> bool) (g : A -> A) (l : list A) :
  (forall a b, le (g a) (g b) = le a b) ->
  order_by le (map g l) = map g (order_by le l).
Proof.
  intros Hle. induction l as [|x l IH]; simpl; [reflexivity|].
  rewrite IH. now apply insert_by_map.
Qed.

Lemma update_comment_as_map (db : DB) (c : Comment) (text : str) :
  unique_constraints db = true -> In c (comments db) ->
  comments (update_comment (set_text text c) db)
  = map (fun x => if comment_pk x =? comment_pk c then set_text text x else x)
      (comments db).
Proof.
  intros Hdb Hc. unfold update_comment. cbn [comments comment_pk set_text].
  apply map_ext_in. intros x Hx.
  destruct (Z.eqb_spec (comment_pk x) (comment_pk c)) as [Heq|]; [|reflexivity].
  now rewrite (distinct_key_inj comment_pk (comments db) x c
                 (comments_distinct db Hdb) Hx Hc Heq).
Qed.

(** X7: an edit by its author changes the text of a comment and nothing else:
    the answer is the redirect to the detail route of the URL's post, and on
    the detail page of every post the comments are listed as before the
    edit, in the same order, with the cleaned text in place of the old one
    in the edited comment.  The number of comments of every post is
    unchanged. *)
Theorem comment_edit_keeps_the_listing
    (db : DB) (user : Requester) (c : Comment) (p : Post)
    (data text : str) :
  unique_constraints db = true ->
  In c (comments db) -> In p (posts db) ->
  same_user (comment_author c) user = true ->
  CommentForm data = Some text ->
  exists db',
    CommentUpdate.view db user (POST data) (post_pk p) (comment_pk c)
    = (Redirect (blog_post_detail (post_pk p)), db')
    /\ (forall q,
          Post_comment db' q
          = map (fun x => if comment_pk x =? comment_pk c
                          then mkComment (comment_pk x) text (comment_post x)
                                 (comment_created_at x) (comment_author x)
                          else x)
              (Post_comment db q))
    /\ (forall q, Count_comment db' q = Count_comment db q)
    /\ posts db' = posts db.
Proof.
  intros Hdb Hc Hp Hown Hvalid.
  exists (update_comment (set_text text c) db).
  destruct (same_user_logged_in _ _ Hown) as [u [-> Hu]].
  pose proof (@update_comment_as_map db c text Hdb Hc) as Hmap.
  split; [|split; [|split]].
  - run_view. rewrite (get_comment db Hdb c Hc). cbn [bind]. rewrite Hown.
    cbn [negb]. rewrite (get_post db Hdb p Hp).
    cbn [bind LoginRequiredMixin_dispatch]. now rewrite Hvalid.
  - intros q. unfold Post_comment. rewrite Hmap.
    rewrite filter_map_commute.
    + apply order_by_map. intros a b. unfold created_at_asc.
      destruct (comment_pk a =? comment_pk c), (comment_pk b =? comment_pk c);
        reflexivity.
    + intros x. now destruct (comment_pk x =? comment_pk c).
  - intros q. unfold Count_comment. rewrite Hmap.
    rewrite filter_map_commute.
    + apply length_map.
    + intros x. now destruct (comment_pk x =? comment_pk c).
  - reflexivity.
Qed.

Lemma comment_edit_keeps_the_listing_witness :
  exists db',
    CommentUpdate.view Sample.db (LoggedIn Sample.alice) (POST (txt " earlier "))
      1 2
    = (Redirect (blog_post_detail 1), db')
    /\ Post_comment db' Sample.shown
       = [mkComment 2 (txt "earlier") 1 60 1; Sample.c1].
Proof.
  destruct (@comment_edit_keeps_the_listing Sample.db (LoggedIn Sample.alice)
              Sample.c2 Sample.shown (txt " earlier ") (txt "earlier"))
    as [db' [Hview [Hlist _]]];
    [reflexivity | simpl; tauto | simpl; tauto | reflexivity | reflexivity |].
  exists db'. split; [exact Hview|]. rewrite Hlist. reflexivity.
Defined.

Lemma update_post_stores (db : DB) (p p' : Post) :
  In p (posts db) -> post_pk p' = post_pk p -> In p' (posts (update_post p' db)).
Proof.
  intros Hin Hpk. unfold update_post. simpl.
  apply in_map_iff. exists p. split; [|exact Hin].
  now rewrite Hpk, Z.eqb_refl.
Qed.

Lemma update_post_others (db : DB) (p' q : Post) :
  In q (posts db) -> post_pk q <> post_pk p' -> In q (posts (update_post p' db)).
Proof.
  intros Hin Hpk. unfold update_post. simpl.
  apply in_map_iff. exists q. split; [|exact Hin].
  apply Z.eqb_neq in Hpk. now rewrite Hpk.
Qed.

(** X8: an edit of a post by its author with a valid form stores the cleaned
    fields in that post and keeps its key, its creation time and its author;
    the other posts, the keys of the table and all comments are as before,
    so the post keeps its comments.  The answer is the redirect to the
    author's profile when the profile route has a path for the author's
    name, that is when the name is a slug; for any other name the edit is
    stored all the same and the answer is the error page. *)
Theorem PostUpdate_by_author_keeps_identity
    (db : DB) (u : User) (p : Post) (data : PostData) (form : PostFields) :
  unique_constraints db = true ->
  In p (posts db) ->
  user_pk u = post_author p ->
  PostForm db data = Some form ->
  exists p' db',
    PostUpdate.view db (LoggedIn u) (POST data) (post_pk p)
    = ((if Urls.is_slug (username u)
        then Redirect (blog_profile (username u)) else ServerError), db')
    /\ In p' (posts db')
    /\ (post_pk p', post_created_at p', post_author p')
       = (post_pk p, post_created_at p, post_author p)
    /\ (post_title p', post_text p', post_pub_date p', post_location p',
        post_category p', post_is_published p')
       = (cleaned_title form, cleaned_text form, cleaned_pub_date form,
          Some (cleaned_location form), Some (cleaned_category form),
          cleaned_is_published form)
    /\ map post_pk (posts db') = map post_pk (posts db)
    /\ (forall q, In q (posts db) -> post_pk q <> post_pk p -> In q (posts db'))
    /\ comments db' = comments db
    /\ Post_comment db' p' = Post_comment db p.
Proof.
  intros Hdb Hin Hown Hvalid.
  exists (construct_instance (post_pk p) (user_pk u) (post_created_at p)
            match cleaned_image form with
            | EmptyString => post_image p
            | file => file
            end form).
  eexists. split.
  - run_view. rewrite (get_post db Hdb p Hin). cbn [bind same_user].
    apply Z.eqb_eq in Hown. rewrite Hown.
    cbn [negb bind LoginRequiredMixin_dispatch]. rewrite Hvalid.
    unfold PostUpdate.form_valid, PostUpdate.get_success_url.
    rewrite reverse_blog_profile_slug.
    destruct (Urls.is_slug (username u)); reflexivity.
  - split; [|split; [|split; [|split; [|split; [|split]]]]].
    + apply update_post_stores with (p := p); [exact Hin | reflexivity].
    + cbn. now rewrite Hown.
    + reflexivity.
    + unfold update_post. cbn [posts]. apply (map_replace_key post_pk).
    + intros q Hq Hne. now apply update_post_others.
    + reflexivity.
    + reflexivity.
Qed.

Lemma PostUpdate_by_author_keeps_identity_witness :
  exists p' db',
    PostUpdate.view Sample.db (LoggedIn Sample.alice)
      (POST (mkPostData false (txt " New ") (txt "Text") (Some 7) (Some 1) (Some 2)
               EmptyString None)) 1
    = (Redirect (blog_profile "alice"), db')
    /\ In p' (posts db')
    /\ (post_pk p', post_created_at p', post_author p') = (1, 10, 1)
    /\ Post_comment db' p' = [Sample.c2; Sample.c1].
Proof.
  destruct (@PostUpdate_by_author_keeps_identity Sample.db Sample.alice
              Sample.shown
              (mkPostData false (txt " New ") (txt "Text") (Some 7) (Some 1) (Some 2)
                 EmptyString None)
              (mkPostFields false (txt "New") (txt "Text") 7 1 2 EmptyString))
    as [p' [db' [Hview [Hin [Hid [_ [_ [_ [_ Hcomments]]]]]]]]];
    [reflexivity | simpl; tauto | reflexivity | reflexivity |].
  exists p', db'. repeat split; assumption.
Defined.

Lemma fresh_post_has_no_comments (db : DB) (pk : Z) :
  comments_have_posts db ->
  (forall q, In q (posts db) -> post_pk q <> pk) ->
  filter (fun c => comment_post c =? pk) (comments db) = [].
Proof.
  intros Hparent Hfresh. apply filter_none. intros c Hc.
  apply Z.eqb_neq. intros Heq.
  destruct (Hparent c Hc) as [q [Hq Hpk]]. apply (Hfresh q Hq). congruence.
Qed.

(** X9: a post created through the view can be read back.  It gets a key that
    no stored post has and the time of the request as its creation time; its
    detail page, for any logged-in requester, shows it with no comments; it
    is on the index list at a given time exactly when it satisfies the
    visibility invariant at that time, with a comment count of 0; and its
    author, when the profile route takes the author's name, finds it on the
    own profile whatever its [is_published] and [pub_date].  The answer to
    the creation is the redirect to the author's profile when the author's
    name is a slug, and the error page otherwise, the post being stored all
    the same. *)
Theorem created_post_can_be_read
    (db : DB) (now : Z) (u viewer : User) (data : PostData) (form : PostFields) :
  unique_constraints db = true ->
  comments_have_posts db ->
  In u (users db) ->
  PostForm db data = Some form ->
  exists object db',
    PostCreate.view db now (LoggedIn u) (POST data)
    = ((if Urls.is_slug (username u)
        then Redirect (blog_profile (username u)) else ServerError), db')
    /\ (forall q, In q (posts db) -> post_pk q <> post_pk object)
    /\ post_created_at object = now
    /\ post_author object = user_pk u
    /\ PostDetail.view db' (LoggedIn viewer) (post_pk object)
       = Render (detail_html object [])
    /\ (forall now', In (object, 0%nat) (IndexList.get_queryset db' now')
                     <-> visible db now' object)
    /\ (Urls.resolve ("profile/" ++ username u ++ "/")%string
        = Some (Urls.profile, [("username"%string, Urls.a_str (username u))]) ->
        exists listing,
          ProfileList.get_queryset db' (LoggedIn u) (username u) = inr listing
          /\ In (object, 0%nat) listing).
Proof.
  intros Hdb Hparent Hu Hvalid.
  set (object := construct_instance (next_pk (map post_pk (posts db)))
                   (user_pk u) now (cleaned_image form) form).
  set (db' := mkDB (users db) (categories db) (locations db)
                (posts db ++ [object]) (comments db)).
  assert (forall q, In q (posts db) -> post_pk q <> post_pk object) as Hfresh.
  { intros q Hq. pose proof (next_pk_fresh (map post_pk (posts db)) (post_pk q)
                               (in_map post_pk _ _ Hq)) as Hlt.
    unfold object, construct_instance. cbn [post_pk]. lia. }
  assert (unique_constraints db' = true) as Hdb'.
  { apply (@unique_constraints_rows db db' Hdb); try reflexivity.
    - unfold db'. cbn [posts]. rewrite map_app.
      apply distinct_app_next_pk, (posts_distinct db Hdb).
    - apply (comments_distinct db Hdb). }
  assert (In object (posts db')) as Hin.
  { unfold db'. cbn [posts]. apply in_or_app. right. now left. }
  assert (Count_comment db' object = 0%nat) as Hcount.
  { unfold Count_comment, db'. cbn [comments].
    now rewrite (fresh_post_has_no_comments Hparent Hfresh). }
  exists object, db'. split; [|split; [|split; [|split; [|split; [|split]]]]].
  - unfold PostCreate.view. cbn [LoginRequiredMixin_dispatch]. rewrite Hvalid.
    unfold PostCreate.form_valid, PostCreate.get_success_url.
    rewrite reverse_blog_profile_slug.
    destruct (Urls.is_slug (username u)); reflexivity.
  - exact Hfresh.
  - reflexivity.
  - reflexivity.
  - unfold PostDetail.view. cbn [LoginRequiredMixin_dispatch].
    rewrite (get_post db' Hdb' object Hin). cbn [bind ret handle].
    unfold PostDetail.get_context_data, Post_comment, db'. cbn [comments].
    now rewrite (fresh_post_has_no_comments Hparent Hfresh).
  - intros now'. rewrite IndexList_get_queryset_eq.
    change (visible db now' object) with (visible db' now' object).
    rewrite <- visibleb_spec. unfold annotate. rewrite in_map_iff. split.
    + intros [q [Heq Hq]]. injection Heq as -> _.
      apply filter_In in Hq. tauto.
    + intros Hv. exists object. split; [now rewrite Hcount|].
      apply filter_In. split; [|exact Hv].
      apply (Permutation_in _ (Permutation_sym (order_by_perm _ _))). exact Hin.
  - intros _. eexists. split.
    + apply (ProfileList_get_queryset_any_requester db' (LoggedIn u) u Hdb' Hu).
    + unfold annotate. apply in_map_iff. exists object.
      split; [now rewrite Hcount|]. apply filter_In. split; [exact Hin|].
      unfold object, construct_instance. cbn [post_author]. apply Z.eqb_refl.
Qed.

Lemma created_post_can_be_read_witness :
  exists object db',
    PostCreate.view Sample.db 100 (LoggedIn Sample.bob)
      (POST (mkPostData false (txt "Draft") (txt "Body") (Some 900) (Some 1) (Some 1)
               EmptyString None))
    = (Redirect (blog_profile "bob"), db')
    /\ PostDetail.view db' (LoggedIn Sample.alice) (post_pk object)
       = Render (detail_html object [])
    /\ exists listing,
         ProfileList.get_queryset db' (LoggedIn Sample.bob) "bob" = inr listing
         /\ In (object, 0%nat) listing.
Proof.
  destruct Sample_foreign_keys as [Hparent _].
  destruct (@created_post_can_be_read Sample.db 100 Sample.bob Sample.alice
              (mkPostData false (txt "Draft") (txt "Body") (Some 900) (Some 1) (Some 1)
                 EmptyString None)
              (mkPostFields false (txt "Draft") (txt "Body") 900 1 1 EmptyString)
              eq_refl Hparent)
    as [object [db' [Hview [_ [_ [_ [Hdetail [_ Hprofile]]]]]]]];
    [simpl; tauto | reflexivity |].
  exists object, db'. split; [exact Hview|]. split; [exact Hdetail|].
  exact (Hprofile eq_refl).
Defined.

Lemma filter_app_one {A} (f : A -> bool) (l : list A) (x : A) :
  filter f (l ++ [x]) = if f x then filter f l ++ [x] else filter f l.
Proof.
  rewrite filter_app. simpl. destruct (f x); [reflexivity | apply app_nil_r].
Qed.

(** X10: a comment added through the view, with a valid form, is one new row:
    its text is the cleaned text, its post the post of the URL, its author
    the requester, its creation time the time of the request and its key
    one that no stored comment has.  The comment count of that post goes up
    by one and its detail page lists the new comment with the old ones; the
    comments and counts of every other post are as before. *)
Theorem CommentAdd_adds_one_comment
    (db : DB) (now : Z) (u : User) (p : Post) (data text : str) :
  unique_constraints db = true ->
  In p (posts db) ->
  CommentForm data = Some text ->
  exists c db',
    CommentAdd.view db now (LoggedIn u) (POST data) (post_pk p)
    = (Redirect (blog_post_detail (post_pk p)), db')
    /\ comments db' = comments db ++ [c]
    /\ posts db' = posts db
    /\ (comment_text c, comment_post c, comment_created_at c, comment_author c)
       = (text, post_pk p, now, user_pk u)
    /\ (forall d, In d (comments db) -> comment_pk d <> comment_pk c)
    /\ Count_comment db' p = S (Count_comment db p)
    /\ Permutation (Post_comment db' p) (c :: Post_comment db p)
    /\ (forall q, post_pk q <> post_pk p ->
          Count_comment db' q = Count_comment db q
          /\ Post_comment db' q = Post_comment db q).
Proof.
  intros Hdb Hin Hvalid.
  eexists. eexists. split.
  - run_view. rewrite (get_post db Hdb p Hin).
    cbn [bind LoginRequiredMixin_dispatch]. rewrite Hvalid.
    unfold CommentAdd.form_valid, CommentAdd.get_success_url. reflexivity.
  - split; [reflexivity|]. split; [reflexivity|]. split; [reflexivity|].
    split; [|split; [|split]].
    + intros d Hd. cbn [comment_pk].
      pose proof (next_pk_fresh (map comment_pk (comments db)) (comment_pk d)
                    (in_map comment_pk _ _ Hd)). lia.
    + unfold Count_comment. cbn [comments]. rewrite filter_app_one.
      cbn [comment_post]. rewrite Z.eqb_refl, length_app. simpl. lia.
    + unfold Post_comment. cbn [comments]. rewrite filter_app_one.
      cbn [comment_post]. rewrite Z.eqb_refl.
      eapply perm_trans; [apply order_by_perm|].
      eapply perm_trans; [apply Permutation_sym, Permutation_cons_append|].
      apply perm_skip, Permutation_sym, order_by_perm.
    + intros q Hq. unfold Count_comment, Post_comment. cbn [comments].
      rewrite filter_app_one. cbn [comment_post].
      assert ((post_pk p =? post_pk q) = false) as -> by (apply Z.eqb_neq; congruence).
      now split.
Qed.

Lemma CommentAdd_adds_one_comment_witness :
  exists c db',
    CommentAdd.view Sample.db 100 (LoggedIn Sample.bob) (POST (txt " hi ")) 1
    = (Redirect (blog_post_detail 1), db')
    /\ comments db' = comments Sample.db ++ [c]
    /\ c = mkComment 4 (txt "hi") 1 100 2
    /\ Count_comment db' Sample.shown = 3%nat.
Proof.
  destruct (@CommentAdd_adds_one_comment Sample.db 100 Sample.bob Sample.shown
              (txt " hi ") (txt "hi") eq_refl)
    as [c [db' [Hview [Hrows [_ [_ [_ [Hcount _]]]]]]]];
    [simpl; tauto | reflexivity |].
  exists c, db'. split; [exact Hview|]. split; [exact Hrows|].
  split; [|exact Hcount].
  vm_compute in Hview. injection Hview as <-.
  vm_compute in Hrows. now injection Hrows as <-.
Defined.

(** X11: the comment count shown with a post on the index list and on a profile
    is the number of comments listed on the post's detail page. *)
Theorem comment_count_is_the_length_of_the_detail_list
    (db : DB) (now : Z) (viewer : User) (name : string) (p : Post) (n : nat) :
  unique_constraints db = true ->
  In (p, n) (IndexList.get_queryset db now)
  \/ (exists user listing,
        ProfileList.get_queryset db user name = inr listing /\ In (p, n) listing) ->
  exists comment_list,
    PostDetail.view db (LoggedIn viewer) (post_pk p)
    = Render (detail_html p comment_list)
    /\ List.length comment_list = n.
Proof.
  intros Hdb Hlisted.
  assert (In p (posts db) /\ n = Count_comment db p) as [Hin ->].
  { destruct Hlisted as [Hindex | [user [listing [Hqs Hl]]]].
    - rewrite IndexList_get_queryset_eq in Hindex. unfold annotate in Hindex.
      apply in_map_iff in Hindex. destruct Hindex as [q [[= -> <-] Hq]].
      apply filter_In in Hq. destruct Hq as [Hq _].
      split; [|reflexivity].
      exact (Permutation_in _ (order_by_perm _ _) Hq).
    - unfold ProfileList.get_queryset in Hqs.
      destruct (ProfileList.author db name) as [e|a]; [discriminate|].
      cbn [bind ListView_get_queryset] in Hqs.
      assert (listing = annotate db (filter (fun p => post_author p =? user_pk a)
                                       (posts db))) as ->.
      { destruct (same_user (user_pk a) user); now injection Hqs as <-. }
      unfold annotate in Hl. apply in_map_iff in Hl.
      destruct Hl as [q [[= -> <-] Hq]]. apply filter_In in Hq.
      now split. }
  exists (Post_comment db p). split.
  - unfold PostDetail.view. cbn [LoginRequiredMixin_dispatch].
    now rewrite (get_post db Hdb p Hin).
  - unfold Count_comment. apply Permutation_length, Post_comment_perm.
Qed.

Lemma comment_count_is_the_length_of_the_detail_list_witness :
  exists comment_list,
    PostDetail.view Sample.db (LoggedIn Sample.bob) 1
    = Render (detail_html Sample.shown comment_list)
    /\ List.length comment_list = 2%nat.
Proof.
  apply (@comment_count_is_the_length_of_the_detail_list Sample.db Sample.now
           Sample.bob EmptyString Sample.shown 2 eq_refl).
  left. vm_compute. now left.
Defined.

(** ** How the listings relate *)

Lemma CategoryList_get_queryset_eq (db : DB) (now : Z) (c : Category) :
  unique_constraints db = true ->
  In c (categories db) -> category_is_published c = true ->
  CategoryList.get_queryset db now (category_slug c)
  = inr (filter (fun p => post_is_published p && (post_pub_date p <=? now))
           (filter (fun p => opt_is (category_pk c) (post_category p)) (posts db))).
Proof.
  intros Hdb Hin Hpub. unfold CategoryList.get_queryset.
  destruct (published_category_lookup db c Hdb Hin Hpub) as [-> _].
  reflexivity.
Qed.

Lemma index_membership (db : DB) (now : Z) (p : Post) :
  (exists n, In (p, n) (IndexList.get_queryset db now)) <->
  In p (posts db) /\ visibleb db now p = true.
Proof.
  rewrite IndexList_get_queryset_eq. unfold annotate. split.
  - intros [n Hin]. apply in_map_iff in Hin. destruct Hin as [q [[= -> _] Hq]].
    apply filter_In in Hq. destruct Hq as [Hq Hv]. split; [|exact Hv].
    exact (Permutation_in _ (order_by_perm _ _) Hq).
  - intros [Hin Hv]. exists (Count_comment db p). apply in_map_iff.
    exists p. split; [reflexivity|]. apply filter_In. split; [|exact Hv].
    exact (Permutation_in _ (Permutation_sym (order_by_perm _ _)) Hin).
Qed.

(** X12: the index list and the category lists show the same posts: the list of
    a published category is the posts of the index list that are in that
    category, and every post of the index list is on the list of its
    category. *)
Theorem index_and_category_lists_agree (db : DB) (now : Z) :
  unique_constraints db = true ->
  (forall c, In c (categories db) -> category_is_published c = true ->
     exists queryset,
       CategoryList.get_queryset db now (category_slug c) = inr queryset
       /\ forall p, In p queryset <->
            (exists n, In (p, n) (IndexList.get_queryset db now))
            /\ post_category p = Some (category_pk c))
  /\ (forall p n, In (p, n) (IndexList.get_queryset db now) ->
        exists c queryset,
          In c (categories db)
          /\ post_category p = Some (category_pk c)
          /\ CategoryList.get_queryset db now (category_slug c) = inr queryset
          /\ In p queryset).
Proof.
  intros Hdb. split.
  - intros c Hin Hpub. eexists. split;
      [apply (CategoryList_get_queryset_eq db now c Hdb Hin Hpub)|].
    intros p. rewrite index_membership, !filter_In, opt_is_Some.
    unfold visibleb. rewrite !andb_true_iff. split.
    + intros [[Hp Hcat] [Hpub' Hdate]]. repeat split; try assumption.
      apply category__is_published_spec. now exists c.
    + tauto.
  - intros p n Hlisted.
    assert (In p (posts db) /\ visibleb db now p = true) as [Hp Hv].
    { apply index_membership. now exists n. }
    pose proof Hv as Hv'. unfold visibleb in Hv'.
    apply andb_true_iff in Hv'. destruct Hv' as [Hv' Hdate].
    apply andb_true_iff in Hv'. destruct Hv' as [Hpub Hcat].
    apply category__is_published_spec in Hcat.
    destruct Hcat as [c [Hc [Hk Hcpub]]].
    exists c. eexists. split; [exact Hc|]. split; [exact Hk|].
    split; [apply (CategoryList_get_queryset_eq db now c Hdb Hc Hcpub)|].
    rewrite !filter_In, opt_is_Some, andb_true_iff. tauto.
Qed.

Lemma index_and_category_lists_agree_witness :
  exists c queryset,
    In c (categories Sample.db)
    /\ CategoryList.get_queryset Sample.db Sample.now (category_slug c)
       = inr queryset
    /\ In Sample.shown queryset.
Proof.
  destruct (index_and_category_lists_agree Sample.db Sample.now eq_refl)
    as [_ Hindex].
  destruct (Hindex Sample.shown 2%nat) as [c [queryset [Hc [_ [Hqs Hin]]]]].
  - vm_compute. now left.
  - exists c, queryset. repeat split; assumption.
Defined.

(** X13: as time passes the index list only grows: the list at an earlier time
    is the list at a later time without the posts dated after the earlier
    time, in the same order and with the same comment counts.  So a post
    that is listed stays listed, and the listed posts keep their order. *)
Theorem index_list_grows_with_time (db : DB) (now now' : Z) :
  now <= now' ->
  IndexList.get_queryset db now
  = filter (fun r => post_pub_date (fst r) <=? now)
      (IndexList.get_queryset db now')
  /\ forall r, In r (IndexList.get_queryset db now) ->
               In r (IndexList.get_queryset db now').
Proof.
  intros Hle.
  assert (IndexList.get_queryset db now
          = filter (fun r => post_pub_date (fst r) <=? now)
              (IndexList.get_queryset db now')) as Heq.
  { rewrite !IndexList_get_queryset_eq.
    rewrite (filter_annotate db (fun p => post_pub_date p <=? now)).
    f_equal. rewrite <- filter_andb. apply filter_ext. intros p.
    unfold visibleb.
    destruct (post_is_published p), (category__is_published db p); simpl;
      try reflexivity.
    destruct (Z.leb_spec (post_pub_date p) now);
      destruct (Z.leb_spec (post_pub_date p) now'); try reflexivity; lia. }
  split; [exact Heq|].
  intros r Hr. rewrite Heq in Hr. now apply filter_In in Hr.
Qed.

Lemma index_list_grows_with_time_witness :
  IndexList.get_queryset Sample.db 100
  = filter (fun r => post_pub_date (fst r) <=? 100)
      (IndexList.get_queryset Sample.db 600).
Proof.
  apply (@index_list_grows_with_time Sample.db 100 600). lia.
Defined.

Lemma without_category_pub_date (k : Z) (a b : Post) :
  pub_date_desc (without_category k a) (without_category k b) = pub_date_desc a b.
Proof.
  unfold pub_date_desc, without_category.
  now destruct (opt_is k (post_category a)), (opt_is k (post_category b)).
Qed.

Lemma without_location_pub_date (k : Z) (a b : Post) :
  pub_date_desc (without_location k a) (without_location k b) = pub_date_desc a b.
Proof.
  unfold pub_date_desc, without_location.
  now destruct (opt_is k (post_location a)), (opt_is k (post_location b)).
Qed.

Lemma category_published_after_delete (db : DB) (k : Z) (p : Post) :
  opt_is k (post_category p) = false ->
  category__is_published (Category_delete db k) p = category__is_published db p.
Proof.
  intros Hother. unfold category__is_published.
  destruct (post_category p) as [j|]; [|reflexivity].
  simpl in Hother. apply Z.eqb_neq in Hother.
  unfold Category_delete, collect, Fields.Post_category. cbn [categories].
  induction (categories db) as [|c l IH]; [reflexivity|].
  simpl. destruct (Z.eqb_spec (category_pk c) k) as [Hk|Hk]; simpl.
  - rewrite IH. destruct (Z.eqb_spec (category_pk c) j); [congruence | reflexivity].
  - now rewrite IH.
Qed.

Lemma index_after_category_delete (db : DB) (now k : Z) (l : list Post) :
  annotate (Category_delete db k)
    (filter (visibleb (Category_delete db k) now) (map (without_category k) l))
  = filter (fun r => negb (opt_is k (post_category (fst r))))
      (annotate db (filter (visibleb db now) l)).
Proof.
  induction l as [|p l IH]; [reflexivity|].
  cbn [map filter]. unfold without_category at 1 2.
  destruct (opt_is k (post_category p)) eqn:E.
  - unfold visibleb at 1. unfold category__is_published at 1.
    cbn [clear_category post_category]. rewrite andb_false_r. cbn [andb].
    rewrite IH. destruct (visibleb db now p); [|reflexivity].
    cbn [annotate map filter fst]. now rewrite E.
  - assert (visibleb (Category_delete db k) now p = visibleb db now p) as ->.
    { unfold visibleb. now rewrite category_published_after_delete. }
    destruct (visibleb db now p); [|exact IH].
    cbn [annotate map filter fst]. rewrite E. cbn [negb].
    unfold annotate in IH. rewrite <- IH. f_equal.
    f_equal. unfold Count_comment.
    now rewrite (proj2 (Category_delete_posts db k)).
Qed.

Lemma index_after_location_delete (db : DB) (now k : Z) (l : list Post) :
  annotate (Location_delete db k)
    (filter (visibleb (Location_delete db k) now) (map (without_location k) l))
  = map (fun r => (without_location k (fst r), snd r))
      (annotate db (filter (visibleb db now) l)).
Proof.
  induction l as [|p l IH]; [reflexivity|].
  cbn [map filter].
  assert (visibleb (Location_delete db k) now (without_location k p)
          = visibleb db now p) as ->.
  { unfold visibleb, category__is_published, without_location.
    now destruct (opt_is k (post_location p)). }
  destruct (visibleb db now p); [|exact IH].
  cbn [annotate map fst snd]. unfold annotate in IH. rewrite <- IH. f_equal.
  f_equal. unfold Count_comment.
  rewrite (proj2 (Location_delete_posts db k)).
  unfold without_location. now destruct (opt_is k (post_location p)).
Qed.

(** X14: deleting a category takes its posts off the index list and leaves the
    rest of the list as it was, order and comment counts included, although
    the posts stay stored.  Deleting a location leaves every post on the
    index list, in the same order and with the same comment counts, with
    the location cleared in the posts that had it. *)
Theorem index_list_after_deletion (db : DB) (now k : Z) :
  IndexList.get_queryset (Category_delete db k) now
  = filter (fun r => negb (opt_is k (post_category (fst r))))
      (IndexList.get_queryset db now)
  /\ IndexList.get_queryset (Location_delete db k) now
     = map (fun r => (without_location k (fst r), snd r))
         (IndexList.get_queryset db now)
  /\ map post_pk (posts (Category_delete db k)) = map post_pk (posts db).
Proof.
  split; [|split].
  - rewrite !IndexList_get_queryset_eq.
    rewrite (proj1 (Category_delete_posts db k)).
    rewrite (order_by_map pub_date_desc (without_category k) (posts db)
               (without_category_pub_date k)).
    apply index_after_category_delete.
  - rewrite !IndexList_get_queryset_eq.
    rewrite (proj1 (Location_delete_posts db k)).
    rewrite (order_by_map pub_date_desc (without_location k) (posts db)
               (without_location_pub_date k)).
    apply index_after_location_delete.
  - rewrite (proj1 (Category_delete_posts db k)), map_map.
    apply map_ext. intros p. unfold without_category.
    now destruct (opt_is k (post_category p)).
Qed.

(** ** The routes *)
Module UrlFacts.
Import Urls.

Lemma slash_is_no_slug_char (a : ascii) :
  slug_char a = true -> negb (Ascii.eqb a "/") = true.
Proof.
  destruct (Ascii.eqb_spec a "/") as [->|]; [discriminate | reflexivity].
Qed.

Lemma all_chars_impl (f g : ascii -> bool) (s : string) :
  (forall a, f a = true -> g a = true) ->
  all_chars f s = true -> all_chars g s = true.
Proof.
  intros Hfg. induction s as [|a s IH]; [reflexivity|].
  simpl. rewrite !andb_true_iff. intros [Ha Hs]. split; [now apply Hfg | now apply IH].
Qed.

Lemma digits_no_slash (s : string) (d : Decimal.uint) :
  NilEmpty.uint_of_string s = Some d -> no_slash s = true.
Proof.
  revert d. induction s as [|a s IH]; intros d H; [reflexivity|].
  simpl in H. destruct (NilEmpty.uint_of_string s) as [d'|] eqn:E;
    [|discriminate H].
  unfold no_slash. simpl. apply andb_true_iff. split; [|now apply (IH d')].
  destruct (Ascii.eqb_spec a "/") as [->|]; [discriminate H | reflexivity].
Qed.

Lemma to_python_no_slash (c : Converter) (text : string) (v : Value) :
  to_python c text = Some v -> no_slash text = true.
Proof.
  destruct c; simpl.
  - unfold NilZero.uint_of_string. destruct text as [|a s]; [discriminate|].
    destruct (NilEmpty.uint_of_string (String a s)) as [d|] eqn:E;
      [|discriminate]. intros _. exact (digits_no_slash _ E).
  - destruct (is_slug text) eqn:E; [|discriminate]. intros _.
    unfold is_slug in E. destruct text as [|a s]; [discriminate|].
    exact (all_chars_impl _ _ _ slash_is_no_slug_char E).
Qed.

(** Converting the text of a converted value gives the value again. *)
Lemma to_python_to_url (c : Converter) (text : string) (v : Value) :
  to_python c text = Some v -> to_python c (to_url v) = Some v.
Proof.
  destruct c; simpl.
  - destruct (NilZero.uint_of_string text) as [d|]; [|discriminate].
    intros [= <-]. simpl. rewrite NilZero.usu.
    + simpl. now rewrite DecimalN.Unsigned.of_to.
    + destruct (N.of_uint d) as [|q]; [discriminate|].
      apply DecimalPos.Unsigned.to_uint_nonnil.
  - destruct (is_slug text) eqn:E; [|discriminate].
    intros [= <-]. simpl. now rewrite E.
Qed.

Lemma split_piece (text rest : string) :
  no_slash text = true ->
  split (text ++ String "/" rest) = text :: split rest.
Proof.
  induction text as [|a s IH]; intros Hno; [reflexivity|].
  unfold no_slash in Hno. simpl in Hno. apply andb_true_iff in Hno.
  destruct Hno as [Ha Hs]. apply negb_true_iff in Ha.
  cbn [append split]. rewrite Ha. now rewrite (IH Hs).
Qed.

Lemma match_pieces_none (route : list Piece) : match_pieces route [] = None.
Proof. destruct route as [|[t|c k] r]; reflexivity. Qed.

Lemma match_pieces_compatible (r1 r2 : list Piece) (segments : list string) :
  match_pieces r1 segments <> None -> match_pieces r2 segments <> None ->
  compatible r1 r2 = true.
Proof.
  revert r2 segments. induction r1 as [|p1 r1 IH]; intros r2 segments H1 H2.
  - destruct segments as [|s [|s' l]]; simpl in H1; try congruence.
    + destruct s; [|congruence].
      destruct r2 as [|[t|c k] r2]; [reflexivity| |]; simpl in H2.
      * destruct (String.eqb t EmptyString); [|congruence].
        now rewrite match_pieces_none in H2.
      * rewrite match_pieces_none in H2. destruct (to_python c EmptyString); congruence.
    + destruct s; congruence.
  - destruct segments as [|s l]; [now rewrite match_pieces_none in H1|].
    destruct r2 as [|p2 r2].
    + simpl in H2. destruct s; [|congruence]. destruct l; [|congruence].
      destruct p1 as [t|c k]; simpl in H1.
      * destruct (String.eqb t EmptyString); [|congruence].
        now rewrite match_pieces_none in H1.
      * rewrite match_pieces_none in H1. destruct (to_python c EmptyString); congruence.
    + assert (match_pieces r1 l <> None /\ match_pieces r2 l <> None) as [H1' H2'].
      { split.
        - destruct p1 as [t|c k]; simpl in H1.
          + destruct (String.eqb t s); congruence.
          + destruct (to_python c s), (match_pieces r1 l); congruence.
        - destruct p2 as [t|c k]; simpl in H2.
          + destruct (String.eqb t s); congruence.
          + destruct (to_python c s), (match_pieces r2 l); congruence. }
      specialize (IH r2 l H1' H2').
      destruct p1 as [t1|c1 k1], p2 as [t2|c2 k2]; simpl in *.
      * destruct (String.eqb_spec t1 s) as [->|]; [|congruence].
        destruct (String.eqb_spec t2 s) as [->|]; [|congruence].
        now rewrite String.eqb_refl.
      * destruct (String.eqb_spec t1 s) as [->|]; [|congruence].
        destruct (to_python c2 s); [exact IH | congruence].
      * destruct (String.eqb_spec t2 s) as [->|]; [|congruence].
        destruct (to_python c1 s); [exact IH | congruence].
      * exact IH.
Qed.

Lemma no_overlap (segments : list string) (p1 p2 : list Piece * Name) :
  In p1 urlpatterns -> In p2 urlpatterns ->
  match_pieces (fst p1) segments <> None ->
  match_pieces (fst p2) segments <> None ->
  p1 = p2.
Proof.
  intros H1 H2 M1 M2.
  pose proof (match_pieces_compatible _ _ _ M1 M2) as Hc.
  clear M1 M2. unfold urlpatterns in H1, H2. simpl in H1, H2.
  repeat (destruct H1 as [<- | H1]; [|]); try contradiction;
    repeat (destruct H2 as [<- | H2]; [|]); try contradiction;
    first [reflexivity | discriminate Hc].
Qed.

(** X15: no path is matched by two routes of the table, so the order of
    [urlpatterns] decides nothing; in particular [posts/create/] is not
    taken for the detail page of a post. *)
Theorem routes_do_not_overlap
    (path : string) (p1 p2 : list Piece * Name) :
  In p1 urlpatterns -> In p2 urlpatterns ->
  match_pieces (fst p1) (split path) <> None ->
  match_pieces (fst p2) (split path) <> None ->
  p1 = p2.
Proof. apply no_overlap. Qed.

Lemma routes_do_not_overlap_witness :
  resolve "posts/create/" = Some (create_post, [])
  /\ nth_error urlpatterns 2 = Some ([lit "posts"; lit "create"], create_post).
Proof.
  split; [reflexivity|].
  apply (f_equal Some).
  apply (@routes_do_not_overlap "posts/create/"
           ([lit "posts"; lit "create"], create_post)
           ([lit "posts"; lit "create"], create_post));
    [simpl; tauto | simpl; tauto | discriminate | discriminate].
Defined.

Lemma names_are_unique (r1 r2 : list Piece) (n1 n2 : Name) :
  In (r1, n1) urlpatterns -> In (r2, n2) urlpatterns ->
  Name_eqb n1 n2 = true -> r1 = r2.
Proof.
  intros H1 H2 Hn. unfold urlpatterns in H1, H2. simpl in H1, H2.
  repeat (destruct H1 as [[= <- <-] | H1]; [|]); try contradiction;
    repeat (destruct H2 as [[= <- <-] | H2]; [|]); try contradiction;
    first [reflexivity | discriminate Hn].
Qed.

Lemma Name_eqb_eq (a b : Name) : Name_eqb a b = true -> a = b.
Proof. destruct a, b; simpl; intros H; first [reflexivity | discriminate H]. Qed.

Lemma Name_eqb_refl (a : Name) : Name_eqb a a = true.
Proof. now destruct a. Qed.

Lemma table_is_well_formed (r : list Piece) (n : Name) :
  In (r, n) urlpatterns -> well_formed r = true.
Proof.
  intros H. unfold urlpatterns in H. simpl in H.
  repeat (destruct H as [[= <- <-] | H]; [reflexivity|]). contradiction.
Qed.

Lemma first_match_In (l : list (list Piece * Name)) (segments : list string)
    (n : Name) (kw : list (string * Value)) :
  first_match l segments = Some (n, kw) ->
  exists r, In (r, n) l /\ match_pieces r segments = Some kw.
Proof.
  induction l as [|[r0 n0] l IH]; [discriminate|]. simpl.
  destruct (match_pieces r0 segments) as [kw0|] eqn:E.
  - intros [= <- <-]. exists r0. split; [now left | exact E].
  - intros H. destruct (IH H) as [r [Hin Hm]]. exists r. split; [now right | exact Hm].
Qed.

Lemma first_match_unique (l : list (list Piece * Name)) (segments : list string)
    (r : list Piece) (n : Name) (kw : list (string * Value)) :
  In (r, n) l -> match_pieces r segments = Some kw ->
  (forall p, In p l -> match_pieces (fst p) segments <> None -> p = (r, n)) ->
  first_match l segments = Some (n, kw).
Proof.
  induction l as [|[r0 n0] l IH]; intros Hin Hm Huniq; [contradiction|].
  simpl. destruct (match_pieces r0 segments) as [kw0|] eqn:E.
  - assert ((r0, n0) = (r, n)) as Heq.
    { apply Huniq; [now left | simpl; congruence]. }
    injection Heq as -> ->. congruence.
  - destruct Hin as [[= -> ->] | Hin]; [congruence|].
    apply IH; [exact Hin | exact Hm |].
    intros p Hp. apply Huniq. now right.
Qed.

Lemma resolve_of_match (path : string) (r : list Piece) (n : Name)
    (kw : list (string * Value)) :
  In (r, n) urlpatterns -> match_pieces r (split path) = Some kw ->
  resolve path = Some (n, kw).
Proof.
  intros Hin Hm. unfold resolve.
  apply (@first_match_unique _ _ _ _ _ Hin Hm).
  intros p Hp Hpm. apply (@no_overlap (split path) p (r, n) Hp Hin Hpm).
  simpl. congruence.
Qed.

Lemma lookup_app (key : string) (pre kw : list (string * Value)) :
  lookup key pre = None -> lookup key (pre ++ kw) = lookup key kw.
Proof.
  induction pre as [|[k v] pre IH]; [reflexivity|]. simpl.
  destruct (String.eqb k key); [discriminate | exact IH].
Qed.

Lemma lookup_app_one (key key' : string) (v : Value) (pre : list (string * Value)) :
  lookup key' pre = None -> key <> key' -> lookup key' (pre ++ [(key, v)]) = None.
Proof.
  intros Hpre Hne. rewrite lookup_app by exact Hpre. simpl.
  destruct (String.eqb_spec key key'); [contradiction | reflexivity].
Qed.

Lemma arity_of_match (r : list Piece) :
  forall segments kw, match_pieces r segments = Some kw ->
                      arity r = List.length kw.
Proof.
  induction r as [|[t|c k] r IH]; intros segments kw H.
  - destruct segments as [|s l]; [discriminate|]. simpl in H.
    destruct s; [|discriminate]. destruct l; [|discriminate].
    now injection H as <-.
  - destruct segments as [|s l]; [discriminate|]. simpl in H.
    destruct (String.eqb t s); [|discriminate]. exact (IH _ _ H).
  - destruct segments as [|s l]; [discriminate|]. simpl in H.
    destruct (to_python c s) as [v|]; [|discriminate].
    destruct (match_pieces r l) as [kw0|] eqn:E; [|discriminate].
    injection H as <-. unfold arity in *. simpl. f_equal. exact (IH _ _ E).
Qed.

Lemma match_render (r : list Piece) :
  forall segments kw pre,
    forallb (fun p => match p with lit text => no_slash text | arg _ _ => true end) r
    = true ->
    distinct String.eqb (keys r) = true ->
    (forall key, In key (keys r) -> lookup key pre = None) ->
    match_pieces r segments = Some kw ->
    exists path,
      render r (pre ++ kw) = Some path
      /\ match_pieces r (split path) = Some kw.
Proof.
  induction r as [|[t|c k] r IH]; intros segments kw pre Hlit Hkeys Hpre H.
  - destruct segments as [|s l]; [discriminate|]. simpl in H.
    destruct s; [|discriminate]. destruct l; [|discriminate].
    injection H as <-. exists EmptyString. split; reflexivity.
  - destruct segments as [|s l]; [discriminate|]. simpl in H.
    destruct (String.eqb t s); [|discriminate].
    simpl in Hlit. apply andb_true_iff in Hlit. destruct Hlit as [Ht Hlit].
    destruct (IH l kw pre Hlit Hkeys Hpre H) as [rest [Hr Hm]].
    exists (t ++ String "/" rest)%string. split.
    + simpl. now rewrite Hr.
    + rewrite (split_piece _ _ Ht). simpl. now rewrite String.eqb_refl.
  - destruct segments as [|s l]; [discriminate|]. simpl in H.
    destruct (to_python c s) as [v|] eqn:Ev; [|discriminate].
    destruct (match_pieces r l) as [kw0|] eqn:E; [|discriminate].
    injection H as <-.
    simpl in Hlit. simpl in Hkeys. apply andb_true_iff in Hkeys.
    destruct Hkeys as [Hk Hkeys]. apply negb_true_iff in Hk.
    assert (forall key, In key (keys r) -> lookup key (pre ++ [(k, v)]) = None)
      as Hpre'.
    { intros key Hin. apply lookup_app_one.
      - apply Hpre. now right.
      - intros <-. assert (existsb (String.eqb k) (keys r) = true) as Hex.
        { apply existsb_exists. exists k. split; [exact Hin | apply String.eqb_refl]. }
        congruence. }
    destruct (IH l kw0 (pre ++ [(k, v)]) Hlit Hkeys Hpre' E) as [rest [Hr Hm]].
    rewrite <- app_assoc in Hr. simpl in Hr.
    pose proof (to_python_to_url _ _ Ev) as Hcanon.
    exists (to_url v ++ String "/" rest)%string. split.
    + simpl. rewrite lookup_app by (apply Hpre; now left).
      simpl. rewrite String.eqb_refl, Hcanon, Hr. reflexivity.
    + rewrite (split_piece _ _ (to_python_no_slash _ _ Hcanon)).
      simpl. now rewrite Hcanon, Hm.
Qed.

Lemma render_match (r : list Piece) :
  forall kwargs path,
    forallb (fun p => match p with lit text => no_slash text | arg _ _ => true end) r
    = true ->
    render r kwargs = Some path ->
    exists kw,
      match_pieces r (split path) = Some kw
      /\ forall key v', In (key, v') kw ->
           exists c v, In (arg c key) r /\ lookup key kwargs = Some v
                       /\ to_python c (to_url v) = Some v'.
Proof.
  induction r as [|[t|c k] r IH]; intros kwargs path Hlit H.
  - injection H as <-. exists []. split; [reflexivity | contradiction].
  - simpl in H. destruct (render r kwargs) as [rest|] eqn:E; [|discriminate].
    injection H as <-.
    simpl in Hlit. apply andb_true_iff in Hlit. destruct Hlit as [Ht Hlit].
    destruct (IH kwargs rest Hlit E) as [kw [Hm Hkw]].
    exists kw. split.
    + cbn [append]. rewrite (split_piece _ _ Ht). simpl. now rewrite String.eqb_refl.
    + intros key v' Hin. destruct (Hkw key v' Hin) as [c [v [Hc Hv]]].
      exists c, v. split; [now right | exact Hv].
  - simpl in H. destruct (lookup k kwargs) as [v|] eqn:El; [|discriminate].
    destruct (to_python c (to_url v)) as [v'|] eqn:Ev; [|discriminate].
    destruct (render r kwargs) as [rest|] eqn:E; [|discriminate].
    injection H as <-. simpl in Hlit.
    destruct (IH kwargs rest Hlit E) as [kw [Hm Hkw]].
    exists ((k, v') :: kw). split.
    + cbn [append]. rewrite (split_piece _ _ (to_python_no_slash _ _ Ev)).
      simpl. now rewrite Ev, Hm.
    + intros key w [[= <- <-] | Hin].
      * exists c, v. split; [now left | now split].
      * destruct (Hkw key w Hin) as [c' [v0 [Hc Hv]]].
        exists c', v0. split; [now right | exact Hv].
Qed.

Lemma reverse_in_found (l : list (list Piece * Name)) (name : Name)
    (kwargs : list (string * Value)) (path : string) :
  reverse_in l name kwargs = Some path ->
  exists r, In (r, name) l /\ render r kwargs = Some path.
Proof.
  induction l as [|[r0 n0] l IH]; [discriminate|]. simpl.
  destruct (Name_eqb n0 name && (arity r0 =? List.length kwargs)%nat) eqn:E.
  - destruct (render r0 kwargs) as [p|] eqn:Er.
    + intros [= <-]. apply andb_true_iff in E. destruct E as [En _].
      apply Name_eqb_eq in En. subst n0. exists r0. split; [now left | exact Er].
    + intros H. destruct (IH H) as [r [Hin Hr]]. exists r. split; [now right | exact Hr].
  - intros H. destruct (IH H) as [r [Hin Hr]]. exists r. split; [now right | exact Hr].
Qed.

Lemma reverse_in_unique (l : list (list Piece * Name)) (name : Name)
    (r : list Piece) (kw : list (string * Value)) (path : string) :
  In (r, name) l ->
  (forall r' n', In (r', n') l -> Name_eqb n' name = true -> r' = r) ->
  arity r = List.length kw -> render r kw = Some path ->
  reverse_in l name kw = Some path.
Proof.
  induction l as [|[r0 n0] l IH]; intros Hin Huniq Har Hr; [contradiction|].
  simpl. destruct (Name_eqb n0 name) eqn:En.
  - assert (r0 = r) as -> by (apply (Huniq r0 n0); [now left | exact En]).
    rewrite Har, Nat.eqb_refl, Hr. reflexivity.
  - simpl. destruct Hin as [[= -> ->] | Hin].
    + now rewrite Name_eqb_refl in En.
    + apply IH; try assumption. intros r' n' Hin'. apply Huniq. now right.
Qed.

(** X16: a path that [reverse] builds resolves to the route it was built from:
    [resolve] answers with the same name, and the arguments it captures are
    the given ones as the converters of the route read them. *)
Theorem reversed_path_resolves
    (name : Name) (kwargs : list (string * Value)) (path : string) :
  reverse name kwargs = Some path ->
  exists kw,
    resolve path = Some (name, kw)
    /\ forall key v', In (key, v') kw ->
         exists c v, lookup key kwargs = Some v
                     /\ to_python c (to_url v) = Some v'.
Proof.
  intros H. unfold reverse in H.
  destruct (@reverse_in_found _ _ _ _ H) as [r [Hin Hr]].
  pose proof (@table_is_well_formed _ _ Hin) as Hwf.
  unfold well_formed in Hwf. apply andb_true_iff in Hwf.
  destruct Hwf as [Hlit _].
  destruct (@render_match r kwargs path Hlit Hr) as [kw [Hm Hkw]].
  exists kw. split; [exact (@resolve_of_match _ _ _ _ Hin Hm)|].
  intros key v' Hk. destruct (Hkw key v' Hk) as [c [v [_ Hv]]].
  now exists c, v.
Qed.

Lemma reversed_path_resolves_witness :
  exists kw,
    resolve "posts/12/edit_comment/5/"
    = Some (edit_comment, kw).
Proof.
  destruct (@reversed_path_resolves edit_comment
              [("id"%string, an_int 5); ("pk"%string, an_int 12)]
              "posts/12/edit_comment/5/" eq_refl) as [kw [Hkw _]].
  now exists kw.
Defined.

(** X17: every path that resolves has a canonical form: [reverse] accepts the
    name and the captured arguments, and the path it builds resolves to the
    same name and arguments. *)
Theorem resolved_path_can_be_reversed
    (path : string) (name : Name) (kw : list (string * Value)) :
  resolve path = Some (name, kw) ->
  exists path',
    reverse name kw = Some path'
    /\ resolve path' = Some (name, kw).
Proof.
  intros H. unfold resolve in H.
  destruct (@first_match_In _ _ _ _ H) as [r [Hin Hm]].
  pose proof (@table_is_well_formed _ _ Hin) as Hwf.
  unfold well_formed in Hwf. apply andb_true_iff in Hwf.
  destruct Hwf as [Hlit Hkeys].
  destruct (@match_render r (split path) kw [] Hlit Hkeys (fun _ _ => eq_refl) Hm)
    as [path' [Hr Hm']].
  exists path'. split.
  - unfold reverse. apply (@reverse_in_unique _ _ _ _ _ Hin).
    + intros r' n' Hin' Hn. exact (@names_are_unique _ _ _ _ Hin' Hin Hn).
    + exact (@arity_of_match _ _ _ Hm).
    + exact Hr.
  - exact (@resolve_of_match _ _ _ _ Hin Hm').
Qed.

Lemma resolved_path_can_be_reversed_witness :
  exists path',
    reverse post_detail [("pk"%string, an_int 7)] = Some path'
    /\ resolve path' = Some (post_detail, [("pk"%string, an_int 7)]).
Proof.
  apply (@resolved_path_can_be_reversed "posts/007/"). reflexivity.
Defined.

(** X18: the two routes the views redirect to.  The detail route of a post has a
    path for every key, and that path resolves to the detail route with the
    same key.  The profile route has a path for a user name exactly when the
    name is a slug: one or more ASCII letters, digits, hyphens and
    underscores; for any other name, one with a dot for instance, [reverse]
    finds no route. *)
Theorem paths_of_the_redirect_targets :
  (forall pk : N,
     reverse post_detail [("pk"%string, an_int pk)]
     = Some ("posts/" ++ to_url (an_int pk) ++ "/")%string
     /\ resolve ("posts/" ++ to_url (an_int pk) ++ "/")%string
        = Some (post_detail, [("pk"%string, an_int pk)]))
  /\ (forall name : string,
        reverse profile [("username"%string, a_str name)]
        = (if is_slug name then Some ("profile/" ++ name ++ "/")%string else None))
  /\ reverse profile [("username"%string, a_str "a.b")] = None.
Proof.
  split; [|split; [|reflexivity]].
  - intros pk.
    assert (to_python int_converter (to_url (an_int pk)) = Some (an_int pk)) as Hpk.
    { simpl. rewrite NilZero.usu.
      - simpl. now rewrite DecimalN.Unsigned.of_to.
      - destruct pk; [discriminate | apply DecimalPos.Unsigned.to_uint_nonnil]. }
    assert (reverse post_detail [("pk"%string, an_int pk)]
            = Some ("posts/" ++ to_url (an_int pk) ++ "/")%string) as Hrev.
    { unfold reverse, urlpatterns.
      cbn [reverse_in Name_eqb andb arity filter List.length Nat.eqb render
           lookup String.eqb Ascii.eqb Bool.eqb option_map].
      rewrite Hpk. reflexivity. }
    split; [exact Hrev|].
    apply (@resolve_of_match _ [lit "posts"; arg int_converter "pk"]).
    + simpl. tauto.
    + change (split ("posts/" ++ to_url (an_int pk) ++ "/")%string)
        with (split ("posts" ++ String "/" (to_url (an_int pk) ++ String "/" EmptyString))%string).
      rewrite split_piece by reflexivity.
      rewrite (split_piece _ _ (to_python_no_slash _ _ Hpk)).
      cbn [match_pieces split String.eqb Ascii.eqb Bool.eqb].
      now rewrite Hpk.
  - intros name. unfold reverse, urlpatterns.
    cbn [reverse_in Name_eqb andb arity filter List.length Nat.eqb render
         lookup String.eqb Ascii.eqb Bool.eqb option_map to_python to_url].
    now destruct (is_slug name).
Qed.
End UrlFacts.

(** ** Cleaned form data *)

Lemma lstrip_head (s : str) (a : N) (t : str) :
  lstrip s = a :: t -> is_space a = false.
Proof.
  induction s as [|b s IH]; [discriminate|]. simpl.
  destruct (is_space b) eqn:E; [exact IH|]. now intros [= <- _].
Qed.

Lemma rstrip_idem (s : str) : rstrip (rstrip s) = rstrip s.
Proof.
  induction s as [|a s IH]; [reflexivity|]. cbn [rstrip].
  destruct (rstrip s) as [|b t] eqn:E.
  - destruct (is_space a) eqn:Ea; [reflexivity|]. cbn [rstrip]. now rewrite Ea.
  - cbn [rstrip]. cbn [rstrip] in IH. now rewrite IH.
Qed.

Lemma rstrip_head (a : N) (t : str) :
  is_space a = false -> exists t', rstrip (a :: t) = a :: t'.
Proof.
  intros Ha. cbn [rstrip]. destruct (rstrip t) as [|b t'].
  - rewrite Ha. now exists [].
  - now exists (b :: t').
Qed.

Lemma strip_idem (s : str) : strip (strip s) = strip s.
Proof.
  unfold strip. destruct (lstrip s) as [|a t] eqn:E; [reflexivity|].
  pose proof (@lstrip_head _ _ _ E) as Ha.
  destruct (@rstrip_head a t Ha) as [t' Ht]. rewrite Ht.
  cbn [lstrip]. rewrite Ha. rewrite <- Ht. apply rstrip_idem.
Qed.

Lemma required_stable (s v : str) : required s = Some v -> required v = Some v.
Proof.
  unfold required. destruct (strip s) as [|a t] eqn:E; [discriminate|].
  intros [= <-]. rewrite <- E, strip_idem, E. reflexivity.
Qed.

Lemma required_not_empty (s v : str) : required s = Some v -> v <> [].
Proof.
  unfold required. destruct (strip s); [discriminate|]. now intros [= <-].
Qed.

Lemma prohibit_null_characters_spec (s v : str) :
  prohibit_null_characters s = Some v -> v = s /\ ~ In 0%N v.
Proof.
  unfold prohibit_null_characters.
  destruct (existsb (N.eqb 0) s) eqn:E; [discriminate|].
  intros [= <-]. split; [reflexivity|]. intros Hin.
  assert (existsb (N.eqb 0) s = true) as Hex.
  { apply existsb_exists. exists 0%N. split; [exact Hin | reflexivity]. }
  congruence.
Qed.

Lemma CommentForm_cleaned (data text : str) :
  CommentForm data = Some text ->
  required data = Some text /\ prohibit_null_characters text = Some text.
Proof.
  unfold CommentForm, opt_bind.
  destruct (required data) as [v|] eqn:E; [|discriminate]. intros H.
  destruct (@prohibit_null_characters_spec _ _ H) as [-> _]. now split.
Qed.

Lemma set_text_same (c : Comment) : set_text (comment_text c) c = c.
Proof. now destruct c. Qed.

Lemma update_comment_same (db : DB) (c : Comment) :
  unique_constraints db = true -> In c (comments db) -> update_comment c db = db.
Proof.
  intros Hdb Hc. unfold update_comment. destruct db as [us cs ls ps ms].
  cbn [users categories locations posts comments] in *. f_equal.
  rewrite <- (map_id ms) at 2. apply map_ext_in. intros x Hx.
  destruct (Z.eqb_spec (comment_pk x) (comment_pk c)) as [Heq|]; [|reflexivity].
  symmetry.
  exact (distinct_key_inj comment_pk ms x c
           (comments_distinct (mkDB us cs ls ps ms) Hdb) Hx Hc Heq).
Qed.

(** X19: cleaning is stable: a text that a comment form accepted is not empty,
    has no white space at either end and no null character, and is accepted
    unchanged when it is submitted again.  So the author who posts a
    comment's stored text back through the edit view leaves the database
    exactly as it was. *)
Theorem cleaned_text_is_stable
    (db : DB) (user : Requester) (c : Comment) (p : Post) (data : str) :
  CommentForm data = Some (comment_text c) ->
  CommentForm (comment_text c) = Some (comment_text c)
  /\ lstrip (comment_text c) = comment_text c
  /\ rstrip (comment_text c) = comment_text c
  /\ comment_text c <> []
  /\ ~ In 0%N (comment_text c)
  /\ (unique_constraints db = true -> In c (comments db) -> In p (posts db) ->
      same_user (comment_author c) user = true ->
      CommentUpdate.view db user (POST (comment_text c)) (post_pk p) (comment_pk c)
      = (Redirect (blog_post_detail (post_pk p)), db)).
Proof.
  intros Hclean.
  destruct (@CommentForm_cleaned _ _ Hclean) as [Hreq Hnull].
  pose proof (@required_stable _ _ Hreq) as Hstable.
  assert (CommentForm (comment_text c) = Some (comment_text c)) as Hagain.
  { unfold CommentForm, opt_bind. now rewrite Hstable. }
  assert (strip (comment_text c) = comment_text c) as Hstrip.
  { unfold required in Hstable.
    destruct (strip (comment_text c)); [discriminate | now injection Hstable]. }
  split; [exact Hagain|]. split; [|split; [|split; [|split]]].
  - unfold strip in Hstrip.
    destruct (lstrip (comment_text c)) as [|a t] eqn:E.
    + simpl in Hstrip. now rewrite <- Hstrip.
    + pose proof (@lstrip_head _ _ _ E) as Ha.
      destruct (@rstrip_head a t Ha) as [t' Ht]. rewrite Ht in Hstrip.
      rewrite <- Hstrip in E. cbn [lstrip] in E. rewrite Ha in E.
      rewrite <- E. exact Hstrip.
  - rewrite <- Hstrip at 1. unfold strip. rewrite rstrip_idem. exact Hstrip.
  - exact (@required_not_empty _ _ Hreq).
  - exact (proj2 (@prohibit_null_characters_spec _ _ Hnull)).
  - intros Hdb Hc Hp Hown.
    destruct (same_user_logged_in _ _ Hown) as [u [-> _]]. run_view.
    rewrite (get_comment db Hdb c Hc). cbn [bind]. rewrite Hown. cbn [negb].
    rewrite (get_post db Hdb p Hp). cbn [bind LoginRequiredMixin_dispatch].
    rewrite Hagain. unfold CommentUpdate.get_success_url.
    now rewrite set_text_same, (@update_comment_same db c Hdb Hc).
Qed.

Lemma cleaned_text_is_stable_witness :
  CommentUpdate.view Sample.db (LoggedIn Sample.bob) (POST (txt "late")) 1 1
  = (Redirect (blog_post_detail 1), Sample.db).
Proof.
  destruct (@cleaned_text_is_stable Sample.db (LoggedIn Sample.bob) Sample.c1
              Sample.shown (txt "  late  ") eq_refl) as [_ [_ [_ [_ [_ Hsame]]]]].
  apply Hsame; [reflexivity | simpl; tauto | simpl; tauto | reflexivity].
Defined.

Lemma PostForm_cleaned (db : DB) (data : PostData) (form : PostFields) :
  PostForm db data = Some form ->
  cleaned_title form <> []
  /\ (List.length (cleaned_title form) <= 256)%nat
  /\ ~ In 0%N (cleaned_title form)
  /\ cleaned_text form <> []
  /\ ~ In 0%N (cleaned_text form).
Proof.
  unfold PostForm, opt_bind, max_length.
  destruct (required (data_title data)) as [title|] eqn:Et; [|discriminate].
  destruct (prohibit_null_characters title) as [title0|] eqn:En; [|discriminate].
  destruct (@prohibit_null_characters_spec _ _ En) as [-> Hn].
  destruct (List.length title <=? 256)%nat eqn:El; [|discriminate].
  destruct (required (data_text data)) as [text|] eqn:Ex; [|discriminate].
  destruct (prohibit_null_characters text) as [text0|] eqn:Em; [|discriminate].
  destruct (@prohibit_null_characters_spec _ _ Em) as [-> Hm].
  destruct (data_pub_date data) as [pub_date|]; [|discriminate].
  destruct (choice _ (data_location data)) as [l|]; [|discriminate].
  destruct (choice _ (data_category data)) as [c|]; [|discriminate].
  intros [= <-]. cbn [cleaned_title cleaned_text].
  split; [exact (@required_not_empty _ _ Et)|].
  split; [now apply Nat.leb_le|].
  split; [exact Hn|]. split; [exact (@required_not_empty _ _ Ex) | exact Hm].
Qed.

(** X20: whatever is requested, the post views store only validated posts: a
    post that is in the table after a request to the create or the edit view
    and was not there before has a title that is not empty, has no null
    character and is at most 256 code points long, a text that is not empty
    and has no null character, a location and a category that are stored
    rows, and the requester as its author. *)
Theorem post_views_store_validated_posts
    (db : DB) (now pk : Z) (user : Requester) (method : Method PostData) (p : Post) :
  In p (posts (snd (PostCreate.view db now user method)))
  \/ In p (posts (snd (PostUpdate.view db user method pk))) ->
  In p (posts db)
  \/ (post_title p <> []
      /\ (List.length (post_title p) <= 256)%nat
      /\ ~ In 0%N (post_title p)
      /\ post_text p <> []
      /\ ~ In 0%N (post_text p)
      /\ (exists l, post_location p = Some l /\ In l (map location_pk (locations db)))
      /\ (exists c, post_category p = Some c /\ In c (map category_pk (categories db)))
      /\ same_user (post_author p) user = true).
Proof.
  assert (forall u form data k created image,
            PostForm db data = Some form ->
            let o := construct_instance k (user_pk u) created image form in
            post_title o <> []
            /\ (List.length (post_title o) <= 256)%nat
            /\ ~ In 0%N (post_title o)
            /\ post_text o <> []
            /\ ~ In 0%N (post_text o)
            /\ (exists l, post_location o = Some l
                          /\ In l (map location_pk (locations db)))
            /\ (exists c, post_category o = Some c
                          /\ In c (map category_pk (categories db)))
            /\ same_user (post_author o) (LoggedIn u) = true) as Hvalid.
  { intros u form data k created image Hform.
    destruct (@PostForm_cleaned _ _ _ Hform) as [Ht [Hl [Hn [Hx Hm]]]].
    destruct (PostForm_choices _ _ Hform) as [Hloc Hcat].
    cbn. repeat split; try assumption.
    - now exists (cleaned_location form).
    - now exists (cleaned_category form).
    - apply Z.eqb_refl. }
  intros [Hin | Hin]; revert Hin; run_view.
  - destruct user as [|u]; cbn [LoginRequiredMixin_dispatch ret snd];
      [now left|].
    destruct method as [|data]; cbn [snd]; [now left|].
    destruct (PostForm db data) as [form|] eqn:Hform; cbn [snd]; [|now left].
    unfold PostCreate.form_valid. case_success_url; cbn [snd posts];
      intros Hin; apply in_app_or in Hin;
      (destruct Hin as [Hin | [<- | []]]; [now left|]);
      right; exact (Hvalid u form data _ _ _ Hform).
  - repeat case_get; cbn [bind snd handle_db]; try (now left).
    case_same_user; cbn [negb snd]; [|now left].
    destruct user as [|u]; cbn [LoginRequiredMixin_dispatch ret snd handle_db];
      [now left|].
    repeat case_get; cbn [bind snd]; try (now left).
    destruct method as [|data]; cbn [snd]; [now left|].
    destruct (PostForm db data) as [form|] eqn:Hform; cbn [snd]; [|now left].
    unfold PostUpdate.form_valid, update_post. case_success_url; cbn [snd posts];
      intros Hin; apply in_map_iff in Hin; destruct Hin as [q [Hq Hqin]];
      (destruct (post_pk q =? _); [|left; now subst]);
      right; subst p; exact (Hvalid u form data _ _ _ Hform).
Qed.

Lemma post_views_store_validated_posts_witness :
  In (mkPost 5 (txt "T") (txt "B") 5 2 (Some 1) (Some 2) EmptyString true 100)
    (posts (snd (PostCreate.view Sample.db 100 (LoggedIn Sample.bob)
                   (POST (mkPostData true (txt " T ") (txt "B") (Some 5) (Some 1)
                            (Some 2) EmptyString (Some 1))))))
  /\ same_user 2 (LoggedIn Sample.bob) = true.
Proof.
  assert (In (mkPost 5 (txt "T") (txt "B") 5 2 (Some 1) (Some 2) EmptyString true 100)
            (posts (snd (PostCreate.view Sample.db 100 (LoggedIn Sample.bob)
                           (POST (mkPostData true (txt " T ") (txt "B") (Some 5)
                                    (Some 1) (Some 2) EmptyString (Some 1)))))))
    as Hin by (vm_compute; tauto).
  split; [exact Hin|].
  destruct (@post_views_store_validated_posts Sample.db 100 0
              (LoggedIn Sample.bob)
              (POST (mkPostData true (txt " T ") (txt "B") (Some 5) (Some 1) (Some 2)
                       EmptyString (Some 1)))
              _ (or_introl Hin)) as [Hold | [_ [_ [_ [_ [_ [_ [_ Hauthor]]]]]]]].
  - exfalso. simpl in Hold.
    repeat (destruct Hold as [Hold | Hold]; [discriminate Hold|]). exact Hold.
  - exact Hauthor.
Defined.

(** ** Profile and pages *)

(** X21: the profile list answers 404 for a user name that no stored user has,
    whoever asks and whatever page.  For the profile's owner the listing is
    every post the owner wrote, published or not and whatever its date, each
    with its comment count, and the pages asked for by number are its
    windows of ten rows, rendered with the owner as [profile] and as
    [user]. *)
Theorem ProfileList_unknown_user_and_own_profile (db : DB) (name : string) :
  ((forall u, In u (users db) -> username u <> name) ->
   forall user page, ProfileList.view db user name page = NotFound)
  /\ (unique_constraints db = true ->
      forall author, In author (users db) -> username author = name ->
      exists listing,
        ProfileList.get_queryset db (LoggedIn author) name = inr listing
        /\ (forall p n, In (p, n) listing <->
              In p (posts db) /\ post_author p = user_pk author
              /\ n = Count_comment db p)
        /\ (forall k, (1 <= k <= num_pages (List.length listing))%nat ->
              ProfileList.view db (LoggedIn author) name (page_number (Z.of_nat k))
              = Render (profile_html author (LoggedIn author) (window k listing)))).
Proof.
  split.
  - intros Hno user page. unfold ProfileList.view, ProfileList.get_queryset,
      ProfileList.author.
    now rewrite (get_missing String.eqb username String.eqb_eq (users db) Hno).
  - intros Hdb author Hin <-.
    pose proof (get_found String.eqb username String.eqb_eq (users db) author
                  (users_distinct db Hdb) Hin) as Hget.
    pose proof (ProfileList_get_queryset_any_requester db (LoggedIn author)
                  author Hdb Hin) as Hqs.
    eexists. split; [exact Hqs|]. split.
    + intros p n. unfold annotate. rewrite in_map_iff. split.
      * intros [q [[= -> <-] Hq]]. apply filter_In in Hq.
        destruct Hq as [Hq Ha]. apply Z.eqb_eq in Ha. now repeat split.
      * intros [Hp [Ha ->]]. exists p. split; [reflexivity|].
        apply filter_In. split; [exact Hp | now apply Z.eqb_eq].
    + intros k Hk. unfold ProfileList.view. rewrite Hqs.
      cbn [bind paginate_queryset]. rewrite Paginator_page_window by exact Hk.
      cbn [bind]. unfold ProfileList.author. now rewrite Hget.
Qed.

Lemma ProfileList_unknown_user_and_own_profile_witness :
  ProfileList.view Sample.db (LoggedIn Sample.bob) "carol" page_absent = NotFound
  /\ exists listing,
       ProfileList.get_queryset Sample.db (LoggedIn Sample.alice) "alice"
       = inr listing
       /\ In (Sample.hidden, 0%nat) listing.
Proof.
  destruct (ProfileList_unknown_user_and_own_profile Sample.db "carol")
    as [Hunknown _].
  destruct (ProfileList_unknown_user_and_own_profile Sample.db "alice")
    as [_ Hown].
  split.
  - apply Hunknown. intros u Hu. simpl in Hu.
    destruct Hu as [<- | [<- | []]]; discriminate.
  - destruct (Hown eq_refl Sample.alice) as [listing [Hqs [Hmem _]]];
      [simpl; tauto | reflexivity |].
    exists listing. split; [exact Hqs|].
    apply Hmem. repeat split. simpl. tauto.
Defined.

(** X22: a list view without a page argument shows the first ten rows, and the
    page [last] shows the last window; a listing of at most ten rows, the
    empty one included, is shown whole on either and never answered with
    404.  Page 1 is the page shown without a page argument, and a page
    argument that is neither a number nor [last] is answered with 404. *)
Theorem default_and_last_page (db : DB) (now : Z) :
  IndexList.view db now page_absent
  = Render (index_html (firstn 10 (IndexList.get_queryset db now)))
  /\ IndexList.view db now page_last
     = Render (index_html
                 (window (num_pages (List.length (IndexList.get_queryset db now)))
                    (IndexList.get_queryset db now)))
  /\ IndexList.view db now (page_number 1) = IndexList.view db now page_absent
  /\ IndexList.view db now page_other = NotFound
  /\ ((List.length (IndexList.get_queryset db now) <= 10)%nat ->
      IndexList.view db now page_absent
      = Render (index_html (IndexList.get_queryset db now))
      /\ IndexList.view db now page_last
         = Render (index_html (IndexList.get_queryset db now))).
Proof.
  pose proof (num_pages_covers (List.length (IndexList.get_queryset db now)))
    as [Hone [Hcover Hlast]].
  assert (IndexList.view db now page_absent
          = Render (index_html (firstn 10 (IndexList.get_queryset db now))))
    as Hfirst.
  { unfold IndexList.view. cbn [paginate_queryset].
    assert (1 <= 1 <= num_pages (List.length (IndexList.get_queryset db now)))%nat
      as Hk by lia.
    pose proof (Paginator_page_window (IndexList.get_queryset db now) Hk) as Hp.
    change (Z.of_nat 1) with 1 in Hp. rewrite Hp. reflexivity. }
  assert (IndexList.view db now page_last
          = Render (index_html
                      (window (num_pages (List.length (IndexList.get_queryset db now)))
                         (IndexList.get_queryset db now)))) as Hend.
  { unfold IndexList.view. cbn [paginate_queryset].
    rewrite Paginator_page_window by lia. reflexivity. }
  split; [exact Hfirst|]. split; [exact Hend|].
  split; [reflexivity|]. split; [reflexivity|].
  intros Hshort.
  assert (num_pages (List.length (IndexList.get_queryset db now)) = 1%nat) as Hn.
  { unfold paginate_by in *. lia. }
  rewrite Hfirst, Hend, Hn. unfold window, paginate_by. cbn [Nat.sub Nat.mul skipn].
  now rewrite firstn_all2 by exact Hshort.
Qed.

Lemma default_and_last_page_witness :
  IndexList.view Sample.db Sample.now page_last
  = Render (index_html (IndexList.get_queryset Sample.db Sample.now)).
Proof.
  destruct (default_and_last_page Sample.db Sample.now) as [_ [_ [_ [_ Hshort]]]].
  apply Hshort. vm_compute. repeat constructor.
Defined.
